(** * Histogram kernels of [session-1/exercises/kernels.ipynb]

    The notebook defines a sequential [cpu_histogram] and a grid-stride
    CUDA kernel [cuda_histogram].  Both receive two NumPy arrays by
    reference (the samples [x] and the counters [histogram_out]) and two
    scalars, and increment the counters in place.

    Modelling decisions, all of them visible in the definitions below:

    - Arrays live in a store indexed by locations.  An array is a whole
      object: two locations are two buffers; views that share part of a
      buffer are not modelled.
    - Floating-point values are IEEE 754 binary64 values, the [float64] of
      NumPy and the [float] of Python, with the arithmetic of the
      specification of binary floating point of the Standard Library:
      every subtraction and division rounds to nearest, ties to even.
      Samples and bounds of other widths ([float32]) are not modelled.
    - A bound [xmin] or [xmax] is a Python [float] or a NumPy scalar.  The
      interpreter raises [ZeroDivisionError] when a Python [float] is
      divided by zero; NumPy returns an infinity or NaN, and so does a
      compiled CUDA kernel.
    - [np.int32(...)] truncates towards zero.  When the integral part does
      not fit in 32 bits, or the value is an infinity or NaN, the
      conversion is undefined and its result depends on the machine: the
      model takes it from a parameter, the [Platform].  One platform
      serves both kernels of a statement, unless the statement names
      two.
    - The counters are [int32], as the notebook allocates them: adding 1
      to 2147483647 gives -2147483648.
    - A CUDA thread is a small state machine; a kernel launch is run under
      an arbitrary schedule, one thread taking one step at a time.  The
      load of [x[i]] and [cuda.atomic.add] are separate steps. *)

From Stdlib Require Import ZArith QArith Qround Lia Floats.SpecFloat.
From stdpp Require Import base list gmap.

(** ** NumPy scalars *)

Module NumPy.

(** IEEE 754 binary64 *)
Definition float64 : Type := spec_float.
Definition prec : Z := 53.
Definition emax : Z := 1024.

(** [float(z)] *)
Definition of_int (z : Z) : float64 := binary_normalize prec emax z 0 false.

(** [a - b] *)
Definition np_sub (a b : float64) : float64 := SFsub prec emax a b.

(** [a + b] *)
Definition np_add (a b : float64) : float64 := SFadd prec emax a b.

(** [a / b], of NumPy scalars: a zero divisor gives an infinity or NaN
    (and a warning), not an exception. *)
Definition np_div (a b : float64) : float64 := SFdiv prec emax a b.

Definition INT32_MIN : Z := -2147483648.
Definition INT32_MAX : Z := 2147483647.

Definition is_int32 (z : Z) : Prop := (INT32_MIN ≤ z ≤ INT32_MAX)%Z.

(** The [int32] congruent to [z] modulo [2^32]. *)
Definition wrap32 (z : Z) : Z := ((z - INT32_MIN) mod 2 ^ 32 + INT32_MIN)%Z.

(** [a + 1] on [int32] *)
Definition int32_succ (a : Z) : Z := wrap32 (a + 1).

(** The integral part of a finite value: [±m·2^e] rounded towards zero. *)
Definition trunc (a : float64) : option Z :=
  match a with
  | S754_zero _ => Some 0%Z
  | S754_finite s m e => Some (cond_Zopp s (Z.shiftl (Z.pos m) e))
  | S754_infinity _ | S754_nan => None
  end.

(** What the conversion of a floating-point value to [int32] yields where
    it is undefined. *)
Class Platform := { cast_invalid : float64 → Z }.

(** [np.int32(a)] *)
Definition np_int32 {platform : Platform} (a : float64) : Z :=
  match trunc a with
  | Some t =>
      if ((INT32_MIN <=? t) && (t <=? INT32_MAX))%Z then t
      else wrap32 (cast_invalid a)
  | None => wrap32 (cast_invalid a)
  end.

(** A conversion that answers [-2^31] wherever it is undefined, as the
    instruction [cvttsd2si] of x86-64 does with a 32-bit destination. *)
Definition cvttsd2si : Platform := {| cast_invalid _ := INT32_MIN |}.

(** A conversion that saturates, and sends NaN to 0. *)
Definition saturating : Platform :=
  {| cast_invalid a :=
       match a with
       | S754_nan | S754_zero _ => 0%Z
       | S754_infinity true | S754_finite true _ _ => INT32_MIN
       | S754_infinity false | S754_finite false _ _ => INT32_MAX
       end |}.

(** A scalar argument: a Python [float] or a NumPy [float64]. *)
Inductive scalar : Type :=
| PyFloat (v : float64)
| NpFloat (v : float64).

Definition value (s : scalar) : float64 :=
  match s with
  | PyFloat v | NpFloat v => v
  end.

Definition is_python (s : scalar) : bool :=
  match s with
  | PyFloat _ => true
  | NpFloat _ => false
  end.

Inductive exception : Type :=
| ZeroDivisionError.

Inductive except (A : Type) : Type :=
| Return (a : A)
| Raise (e : exception).
Arguments Return {A} a.
Arguments Raise {A} e.

End NumPy.
Export NumPy.

(** ** Arrays and the store *)

(** An array of [float64] or an array of [int32]. *)
Inductive ndarray : Type :=
| FloatArray (data : list float64)
| IntArray (data : list Z).

#[export] Instance ndarray_inhabited : Inhabited ndarray := populate (IntArray []).

(** [a.shape[0]] *)
Definition shape0 (a : ndarray) : nat :=
  match a with
  | FloatArray data => length data
  | IntArray data => length data
  end.

(** [a[i]], as the floating-point operand it becomes in [a[i] - xmin]. *)
Definition getitem (a : ndarray) (i : nat) : option float64 :=
  match a with
  | FloatArray data => data !! i
  | IntArray data => of_int <$> data !! i
  end.

(** [a[i] += 1] *)
Definition iadd1 (a : ndarray) (i : nat) : ndarray :=
  match a with
  | FloatArray data => FloatArray (alter (λ v, np_add v (of_int 1)) i data)
  | IntArray data => IntArray (alter int32_succ i data)
  end.

Definition loc : Type := nat.
Abbreviation memory := (gmap loc ndarray).

(** How a call ends: it returns, or it raises an exception; either way it
    leaves a store. *)
Inductive outcome : Type :=
| Returned (m : memory)
| Raised (e : exception) (m : memory).

Definition store_of (o : outcome) : memory :=
  match o with
  | Returned m | Raised _ m => m
  end.

(** ** The sequential kernel *)

(** The expression shared by both kernels:
    [np.int32((element - xmin)/bin_width)].  The element comes from a
    NumPy array, so the arithmetic is NumPy's whatever [xmin] and
    [bin_width] are. *)
Definition bin_of {platform : Platform} (xmin : scalar)
    (bin_width element : float64) : Z :=
  np_int32 (np_div (np_sub element (value xmin)) bin_width).

(** [(xmax - xmin) / nbins] in IEEE arithmetic. *)
Definition bin_width_of (xmin xmax : scalar) (nbins : nat) : float64 :=
  np_div (np_sub (value xmax) (value xmin)) (of_int (Z.of_nat nbins)).

(** [(xmax - xmin) / nbins] in the interpreter: when both bounds are
    Python floats, so is their difference, and dividing it by zero
    raises. *)
Definition width_of (xmin xmax : scalar) (nbins : nat) : except float64 :=
  if is_python xmin && is_python xmax && bool_decide (nbins = 0)
  then Raise ZeroDivisionError
  else Return (bin_width_of xmin xmax nbins).

(** [if bin_number >= 0 and bin_number < histogram_out.shape[0]:
       histogram_out[bin_number] += 1]
    (in the CUDA kernel the update is [cuda.atomic.add], one indivisible
    read-modify-write, which is what a single store update is). *)
Definition increment (out : loc) (bin_number : Z) (m : memory) : memory :=
  if bool_decide (0 ≤ bin_number)%Z
     && bool_decide (bin_number < Z.of_nat (shape0 (m !!! out)))%Z
  then <[out := iadd1 (m !!! out) (Z.to_nat bin_number)]> m
  else m.

(** One iteration of [for element in x]: the element is read from the
    array as it is at that moment.  The iteration stops at the length of
    the array, so the read never misses. *)
Definition cpu_body {platform : Platform} (x out : loc) (xmin : scalar)
    (bin_width : float64) (m : memory) (i : nat) : memory :=
  match getitem (m !!! x) i with
  | Some element => increment out (bin_of xmin bin_width element) m
  | None => m
  end.

Definition cpu_histogram {platform : Platform} (x : loc) (xmin xmax : scalar)
    (out : loc) (m : memory) : outcome :=
  let nbins := shape0 (m !!! out) in
  match width_of xmin xmax nbins with
  | Raise e => Raised e m
  | Return bin_width =>
      Returned (foldl (cpu_body x out xmin bin_width) m
                  (seq 0 (shape0 (m !!! x))))
  end.

(** ** The CUDA kernel *)

(** [cuda.grid(1)] and [cuda.gridsize(1)] *)
Definition cuda_grid (blockIdx blockDim threadIdx : nat) : nat :=
  threadIdx + blockIdx * blockDim.
Definition cuda_gridsize (gridDim blockDim : nat) : nat :=
  gridDim * blockDim.

(** Python's [range(start, stop, step)] for a positive step, with the
    length CPython computes for it. *)
Definition range_length (start stop step : nat) : nat :=
  if bool_decide (start < stop) then (stop - start - 1) / step + 1 else 0.

Definition py_range (start stop step : nat) : list nat :=
  map (λ j, start + j * step) (seq 0 (range_length start stop step)).

(** A thread of [cuda_histogram] is either at the head of its loop, with
    the indices its [range] has still to yield, or it has loaded [x[i]] and
    holds the bin number it computed from it.  The range stops below
    [x.shape[0]], so the load never misses. *)
Inductive thread : Type :=
| Loop (todo : list nat)
| Add (bin_number : Z) (todo : list nat).

Definition thread_step {platform : Platform} (x out : loc) (xmin : scalar)
    (bin_width : float64) (m : memory) (t : thread) : memory * thread :=
  match t with
  | Loop [] => (m, Loop [])
  | Loop (i :: todo) =>
      match getitem (m !!! x) i with
      | Some element => (m, Add (bin_of xmin bin_width element) todo)
      | None => (m, Loop todo)
      end
  | Add bin_number todo => (increment out bin_number m, Loop todo)
  end.

(** The threads of a launch [kernel[gridDim, blockDim]] on [n] samples,
    each at the head of [for i in range(start, x.shape[0], stride)]. *)
Definition launch (gridDim blockDim n : nat) : list thread :=
  flat_map
    (λ blockIdx,
       map (λ threadIdx,
              Loop (py_range (cuda_grid blockIdx blockDim threadIdx) n
                      (cuda_gridsize gridDim blockDim)))
           (seq 0 blockDim))
    (seq 0 gridDim).

(** The thread at position [k] takes one step. *)
Definition grid_step {platform : Platform} (x out : loc) (xmin : scalar)
    (bin_width : float64) (s : memory * list thread) (k : nat)
    : memory * list thread :=
  match s.2 !! k with
  | Some t =>
      let '(m', t') := thread_step x out xmin bin_width s.1 t in
      (m', <[k := t']> s.2)
  | None => s
  end.

(** [cuda_histogram[gridDim, blockDim](x, xmin, xmax, histogram_out)] run
    under the schedule [sched], the list of the threads that step, in
    order.  The kernel is compiled: its division does not raise. *)
Definition cuda_histogram {platform : Platform} (gridDim blockDim : nat)
    (sched : list nat) (x : loc) (xmin xmax : scalar) (out : loc) (m : memory)
    : memory * list thread :=
  let nbins := shape0 (m !!! out) in
  let bin_width := bin_width_of xmin xmax nbins in
  foldl (grid_step x out xmin bin_width)
        (m, launch gridDim blockDim (shape0 (m !!! x))) sched.

(** A thread has returned when its loop has nothing left; a kernel has
    finished when all its threads have. *)
Definition returned (t : thread) : bool :=
  match t with
  | Loop [] => true
  | _ => false
  end.

Definition finished (s : memory * list thread) : bool := forallb returned s.2.

(** ** The calls of the notebook *)

(** [histogram_out = np.zeros(shape=nbins, dtype=np.int32)] *)
Definition np_zeros (nbins : nat) : list Z := replicate nbins 0%Z.

Definition x_loc : loc := 0.
Definition out_loc : loc := 1.

(** Two separately allocated arrays: the samples and the counters. *)
Definition two_arrays (xs : list float64) (h : list Z) : memory :=
  {[ x_loc := FloatArray xs; out_loc := IntArray h ]}.

Definition counters (m : memory) : list Z :=
  match m !!! out_loc with
  | IntArray data => data
  | FloatArray _ => []
  end.

(** [cpu_histogram(x, xmin, xmax, histogram_out)] *)
Definition cpu_call {platform : Platform} (xs : list float64)
    (xmin xmax : scalar) (h : list Z) : outcome :=
  cpu_histogram x_loc xmin xmax out_loc (two_arrays xs h).

(** [histogram_out] after the call, whichever way it ended. *)
Definition cpu_counts {platform : Platform} (xs : list float64)
    (xmin xmax : scalar) (h : list Z) : list Z :=
  counters (store_of (cpu_call xs xmin xmax h)).

(** [cuda_histogram[gridDim, blockDim](x, xmin, xmax, histogram_out);
    histogram_out] *)
Definition cuda_run {platform : Platform} (gridDim blockDim : nat)
    (sched : list nat) (xs : list float64) (xmin xmax : scalar) (h : list Z)
    : memory * list thread :=
  cuda_histogram gridDim blockDim sched x_loc xmin xmax out_loc
    (two_arrays xs h).

Definition cuda_counts {platform : Platform} (gridDim blockDim : nat)
    (sched : list nat) (xs : list float64) (xmin xmax : scalar) (h : list Z)
    : list Z :=
  counters (cuda_run gridDim blockDim sched xs xmin xmax h).1.

(** The histogram of the samples, from zeroed counters. *)
Definition histogram {platform : Platform} (xs : list float64)
    (xmin xmax : scalar) (nbins : nat) : list Z :=
  cpu_counts xs xmin xmax (np_zeros nbins).

(** ** What one pass over the samples does to the counters *)

(** The guarded increment, on the contents of the counter array. *)
Definition bump (bin_number : Z) (h : list Z) : list Z :=
  if bool_decide (0 ≤ bin_number)%Z
     && bool_decide (bin_number < Z.of_nat (length h))%Z
  then alter int32_succ (Z.to_nat bin_number) h
  else h.

Definition accumulate (bins : list Z) (h : list Z) : list Z :=
  foldl (λ h b, bump b h) h bins.

(** The bin numbers the kernels compute for the samples [xs] when the
    counter array has [nbins] entries. *)
Definition bins_of {platform : Platform} (xmin xmax : scalar) (nbins : nat)
    (xs : list float64) : list Z :=
  bin_of xmin (bin_width_of xmin xmax nbins) <$> xs.

(** The samples an array holds, as the kernels read them. *)
Definition elements (a : ndarray) : list float64 :=
  match a with
  | FloatArray data => data
  | IntArray data => of_int <$> data
  end.

(** How many samples the code assigns to bin [i]. *)
Definition assigned {platform : Platform} (xmin xmax : scalar) (nbins : nat)
    (xs : list float64) (i : nat) : Z :=
  Z.of_nat (length (filter (λ b, b = Z.of_nat i) (bins_of xmin xmax nbins xs))).
(** ** Facts about the counters *)

Section counters.
Implicit Types (h : list Z) (b : Z) (bins : list Z) (i : nat).

Lemma length_bump b h : length (bump b h) = length h.
Proof. unfold bump. case_match; [apply length_alter | done]. Qed.

Lemma accumulate_cons b bins h :
  accumulate (b :: bins) h = accumulate bins (bump b h).
Proof. done. Qed.

Lemma length_accumulate bins h : length (accumulate bins h) = length h.
Proof.
  revert h. induction bins as [|b bins IH]; intros h; [done|].
  rewrite accumulate_cons, IH. apply length_bump.
Qed.

Lemma lookup_bump b h i :
  bump b h !! i
  = (λ c, if decide (b = Z.of_nat i) then int32_succ c else c) <$> h !! i.
Proof.
  unfold bump.
  destruct (bool_decide (0 ≤ b)%Z) eqn:Hlo;
    [apply bool_decide_eq_true in Hlo | apply bool_decide_eq_false in Hlo];
    (destruct (bool_decide (b < Z.of_nat (length h))%Z) eqn:Hhi;
     [apply bool_decide_eq_true in Hhi | apply bool_decide_eq_false in Hhi]);
    cbn [andb].
  - destruct (decide (b = Z.of_nat i)) as [->|Hne].
    + rewrite Nat2Z.id. apply list_lookup_alter_eq.
    + rewrite list_lookup_alter_ne by lia. by destruct (h !! i).
  - destruct (h !! i) as [c|] eqn:Hi; [|done].
    apply lookup_lt_Some in Hi. cbn. case_decide; [lia | done].
  - destruct (h !! i) as [c|] eqn:Hi; [|done].
    cbn. case_decide; [lia | done].
  - destruct (h !! i) as [c|] eqn:Hi; [|done].
    cbn. case_decide; [lia | done].
Qed.

Lemma bump_comm a b h : bump a (bump b h) = bump b (bump a h).
Proof.
  apply list_eq; intros i. rewrite !lookup_bump.
  destruct (h !! i) as [c|]; [|done]. cbn.
  by repeat case_decide.
Qed.

Lemma accumulate_app bins bins' h :
  accumulate (bins ++ bins') h = accumulate bins' (accumulate bins h).
Proof. apply foldl_app. Qed.

Lemma accumulate_snoc bins b h :
  accumulate (bins ++ [b]) h = bump b (accumulate bins h).
Proof. by rewrite accumulate_app. Qed.

Lemma accumulate_bump bins b h :
  accumulate bins (bump b h) = bump b (accumulate bins h).
Proof.
  revert h. induction bins as [|a bins IH]; intros h; [done|].
  rewrite !accumulate_cons, bump_comm. apply IH.
Qed.

Lemma accumulate_nil bins : accumulate bins [] = [].
Proof.
  induction bins as [|b bins IH]; [done|].
  rewrite accumulate_cons. unfold bump. by case_match.
Qed.

(** The order of the increments is immaterial. *)
Lemma accumulate_perm bins bins' h :
  bins ≡ₚ bins' → accumulate bins h = accumulate bins' h.
Proof.
  intros Hp. revert h.
  induction Hp as [|b l l' _ IH|a b l|l l' l'' _ IH1 _ IH2]; intros h.
  - done.
  - rewrite !accumulate_cons. apply IH.
  - rewrite !accumulate_cons. by rewrite bump_comm.
  - by rewrite IH1.
Qed.

(** Every counter is incremented once for each increment addressed to
    it. *)
Lemma lookup_accumulate bins h i :
  accumulate bins h !! i
  = Nat.iter (length (filter (λ b, b = Z.of_nat i) bins)) int32_succ
      <$> h !! i.
Proof.
  revert h. induction bins as [|b bins IH]; intros h.
  - cbn. by destruct (h !! i).
  - rewrite accumulate_cons, IH, lookup_bump. destruct (h !! i) as [c|]; [|done].
    rewrite filter_cons. cbn [fmap option_fmap option_map].
    destruct (decide (b = Z.of_nat i)); [|done].
    cbn [length]. by rewrite Nat.iter_succ_r.
Qed.

End counters.

(** ** The sequential kernel computes [accumulate] *)

Section refinement.
Context {platform : Platform}.
Implicit Types (m : memory) (h : list Z) (x out : loc).

Lemma getitem_elements a i : getitem a i = elements a !! i.
Proof. destruct a; cbn; [done | by rewrite list_lookup_fmap]. Qed.

Lemma shape0_elements a : shape0 a = length (elements a).
Proof. destruct a; cbn; [done | by rewrite length_fmap]. Qed.

Lemma increment_int out b m h :
  m !! out = Some (IntArray h) →
  increment out b m = <[out := IntArray (bump b h)]> m.
Proof.
  intros Hout. unfold increment, bump.
  rewrite (lookup_total_correct _ _ _ Hout). cbn.
  case_match; [done | by rewrite insert_id].
Qed.

Lemma cpu_loop x out xmin bw a n j m h :
  x ≠ out →
  m !! x = Some a →
  m !! out = Some (IntArray h) →
  foldl (cpu_body x out xmin bw) m (seq j n)
  = <[out := IntArray
               (accumulate (bin_of xmin bw <$> take n (drop j (elements a)))
                  h)]> m.
Proof.
  intros Hne. revert j m h. induction n as [|n IH]; intros j m h Hx Hout.
  - cbn. by rewrite insert_id.
  - cbn [seq foldl]. unfold cpu_body at 2.
    rewrite (lookup_total_correct _ _ _ Hx), getitem_elements.
    destruct (elements a !! j) as [e|] eqn:Hj.
    + rewrite (drop_S _ _ _ Hj). cbn.
      rewrite (increment_int _ _ _ _ Hout).
      rewrite (IH (S j) _ (bump (bin_of xmin bw e) h)).
      * by rewrite insert_insert_eq.
      * by rewrite lookup_insert_ne.
      * by rewrite lookup_insert_eq.
    + rewrite (IH (S j) m h Hx Hout).
      apply lookup_ge_None in Hj.
      rewrite !drop_ge by lia. by rewrite !take_nil.
Qed.

Lemma cpu_histogram_accumulate x out xmin xmax a m h :
  x ≠ out →
  m !! x = Some a →
  m !! out = Some (IntArray h) →
  store_of (cpu_histogram x xmin xmax out m)
  = <[out := IntArray
               (accumulate (bins_of xmin xmax (length h) (elements a)) h)]>
      m.
Proof.
  intros Hne Hx Hout. unfold cpu_histogram, bins_of, width_of.
  rewrite (lookup_total_correct _ _ _ Hx), (lookup_total_correct _ _ _ Hout).
  cbn [shape0].
  destruct (is_python xmin && is_python xmax && bool_decide (length h = 0))
    eqn:Hraise; cbn [store_of].
  - apply andb_true_iff in Hraise as [_ Hlen].
    apply bool_decide_eq_true in Hlen. destruct h; [|done].
    by rewrite accumulate_nil, insert_id.
  - rewrite (cpu_loop x out _ _ a _ _ m h) by done.
    rewrite shape0_elements, drop_0, firstn_all. done.
Qed.

Lemma cpu_counts_accumulate xs xmin xmax h :
  cpu_counts xs xmin xmax h
  = accumulate (bins_of xmin xmax (length h) xs) h.
Proof.
  unfold cpu_counts, cpu_call, counters, two_arrays.
  rewrite (cpu_histogram_accumulate x_loc out_loc _ _ (FloatArray xs) _ h);
    [|done..].
  by rewrite lookup_total_insert_eq.
Qed.

End refinement.

(** ** The grid-stride partition of the indices *)

Section grid_stride.

Lemma range_length_lt start stop step j :
  0 < step → j < range_length start stop step ↔ start + j * step < stop.
Proof.
  intros Hstep. unfold range_length. case_bool_decide as Hlt; [|lia].
  pose proof (Nat.div_mod_eq (stop - start - 1) step) as Hdm.
  pose proof (Nat.mod_upper_bound (stop - start - 1) step) as Hr.
  split; nia.
Qed.

Lemma elem_of_py_range start stop step i :
  0 < step →
  i ∈ py_range start stop step ↔ ∃ j, i = start + j * step ∧ i < stop.
Proof.
  intros Hstep. unfold py_range. rewrite list_elem_of_fmap. split.
  - intros (j & -> & Hj). apply elem_of_seq in Hj. exists j. split; [done|].
    apply range_length_lt; lia.
  - intros (j & -> & Hj). exists j. split; [done|].
    apply elem_of_seq. apply range_length_lt in Hj; lia.
Qed.

(** Worker [k] of [W] visits the indices below [M] congruent to [k]. *)
Lemma elem_of_py_range_mod k M W i :
  k < W → i ∈ py_range k M W ↔ i < M ∧ i mod W = k.
Proof.
  intros Hk. rewrite elem_of_py_range by lia. split.
  - intros (j & -> & Hlt). split; [done|].
    rewrite Nat.Div0.mod_add. by apply Nat.mod_small.
  - intros [Hlt <-]. exists (i / W). split; [|done].
    pose proof (Nat.div_mod_eq i W). lia.
Qed.

Lemma NoDup_py_range start stop step :
  0 < step → NoDup (py_range start stop step).
Proof.
  intros Hstep. unfold py_range. apply NoDup_fmap_2_strong; [|apply NoDup_seq].
  intros j j' _ _ Heq. nia.
Qed.

Lemma py_range_nil start stop step : stop ≤ start → py_range start stop step = [].
Proof.
  intros Hle. unfold py_range, range_length.
  case_bool_decide; [lia | done].
Qed.

Lemma NoDup_concat {A} (ls : list (list A)) :
  (∀ l, l ∈ ls → NoDup l) →
  (∀ i j l1 l2 a,
     ls !! i = Some l1 → ls !! j = Some l2 → a ∈ l1 → a ∈ l2 → i = j) →
  NoDup (concat ls).
Proof.
  induction ls as [|l ls IH]; intros Hnd Hdisj; cbn; [constructor|].
  apply NoDup_app. split_and!.
  - apply Hnd. left.
  - intros a Ha Hin. apply list_elem_of_In, in_concat in Hin.
    destruct Hin as (l' & Hl' & Ha').
    apply list_elem_of_In, list_elem_of_lookup in Hl'. destruct Hl' as [j Hj].
    apply list_elem_of_In in Ha'.
    by specialize (Hdisj 0 (S j) l l' a eq_refl Hj Ha Ha').
  - apply IH.
    + intros l' Hl'. apply Hnd. by right.
    + intros i j l1 l2 a Hi Hj H1 H2.
      by specialize (Hdisj (S i) (S j) l1 l2 a Hi Hj H1 H2) as [= ->].
Qed.

Lemma elem_of_concat_ranges M W i :
  i ∈ concat ((λ k, py_range k M W) <$> seq 0 W)
  ↔ ∃ k, k < W ∧ i ∈ py_range k M W.
Proof.
  rewrite list_elem_of_In, in_concat. split.
  - intros (l & Hl & Hi). apply list_elem_of_In, list_elem_of_fmap in Hl.
    destruct Hl as (k & -> & Hk). apply elem_of_seq in Hk.
    exists k. split; [lia | by apply list_elem_of_In].
  - intros (k & Hk & Hi). exists (py_range k M W). split.
    + apply list_elem_of_In, list_elem_of_fmap. exists k. split; [done|].
      apply elem_of_seq. lia.
    + by apply list_elem_of_In.
Qed.

(** The walks of the [W] workers, put end to end, are a rearrangement
    of [0, ..., M-1]. *)
Lemma grid_stride_partition M W :
  0 < W → concat ((λ k, py_range k M W) <$> seq 0 W) ≡ₚ seq 0 M.
Proof.
  intros HW. apply NoDup_Permutation.
  - apply NoDup_concat.
    + intros l Hl. apply list_elem_of_fmap in Hl as (k & -> & _).
      by apply NoDup_py_range.
    + intros i j l1 l2 a Hi Hj H1 H2.
      rewrite list_lookup_fmap in Hi, Hj.
      destruct (seq 0 W !! i) as [k1|] eqn:Hk1; [|done].
      destruct (seq 0 W !! j) as [k2|] eqn:Hk2; [|done].
      apply lookup_seq in Hk1 as [-> ?]. apply lookup_seq in Hk2 as [-> ?].
      cbn in Hi, Hj. simplify_eq.
      apply elem_of_py_range_mod in H1, H2; lia.
  - apply NoDup_seq.
  - intros i. rewrite elem_of_concat_ranges, elem_of_seq. split.
    + intros (k & Hk & Hi). apply elem_of_py_range_mod in Hi; lia.
    + intros Hi. exists (i mod W). split.
      * apply Nat.mod_upper_bound. lia.
      * apply elem_of_py_range_mod; [apply Nat.mod_upper_bound; lia | lia].
Qed.

End grid_stride.

(** ** The CUDA kernel under an arbitrary schedule *)

Lemma launch_seq gridDim blockDim n :
  launch gridDim blockDim n
  = (λ k, Loop (py_range k n (gridDim * blockDim)))
      <$> seq 0 (gridDim * blockDim).
Proof.
  unfold launch, cuda_gridsize, cuda_grid.
  set (F := λ k, Loop (py_range k n (gridDim * blockDim))).
  change (flat_map (λ blockIdx, map (λ threadIdx, F (threadIdx + blockIdx * blockDim))
                                    (seq 0 blockDim)) (seq 0 gridDim)
          = F <$> seq (0 * blockDim) (gridDim * blockDim)).
  generalize 0 at 2 3 as s. clearbody F.
  induction gridDim as [|g IH]; intros s; [done|].
  cbn [seq flat_map]. rewrite IH.
  replace (S g * blockDim) with (blockDim + g * blockDim) by lia.
  rewrite seq_app, fmap_app. f_equal.
  - rewrite <- (Nat.add_0_r (s * blockDim)) at 1.
    rewrite <- (fmap_add_seq (s * blockDim) 0 blockDim).
    rewrite <- list_fmap_compose. apply list_fmap_ext. intros _ j _. cbn.
    f_equal. lia.
  - f_equal. f_equal. lia.
Qed.

Lemma concat_insert_app {A} (Ps : list (list A)) k P l :
  Ps !! k = Some P → concat (<[k := P ++ l]> Ps) ≡ₚ concat Ps ++ l.
Proof.
  revert k. induction Ps as [|Q Ps IH]; intros [|k] Hk; simplify_eq/=.
  - by rewrite <- !(assoc (++)), (comm (++) l).
  - by rewrite (IH k Hk), (assoc (++)).
Qed.

Lemma concat_replicate_nil {A} n : concat (replicate n (@nil A)) = [].
Proof. induction n; [done | by cbn]. Qed.

Lemma omap_lookup_seq {A B} (f : A → B) (pre l : list A) :
  omap (λ i, f <$> (pre ++ l) !! i) (seq (length pre) (length l)) = f <$> l.
Proof.
  revert pre. induction l as [|e l IH]; intros pre; [done|].
  cbn [length seq]. rewrite fmap_cons.
  change (omap ?g (?i :: ?tl)) with
    (match g i with Some y => y :: omap g tl | None => omap g tl end).
  cbn beta. rewrite list_lookup_middle by done. cbn. f_equal.
  specialize (IH (pre ++ [e])).
  rewrite length_app, Nat.add_1_r in IH.
  by replace (pre ++ e :: l) with ((pre ++ [e]) ++ l)
    by (by rewrite <- (assoc (++))).
Qed.

Section schedule.
Context {platform : Platform}.
Context (x out : loc) (xmin : scalar) (bw : float64) (a : ndarray).
Context (m0 : memory) (h0 : list Z) (W : nat).
Hypothesis Hne : x ≠ out.
Hypothesis Hx : m0 !! x = Some a.
Hypothesis Hout : m0 !! out = Some (IntArray h0).

Let xs := elements a.
Let M := length xs.

(** The bin numbers of the samples at the indices [idx]. *)
Definition bins_at (idx : list nat) : list Z :=
  omap (λ i, bin_of xmin bw <$> xs !! i) idx.

(** [P] lists the indices whose increment thread [k] has performed. *)
Definition thread_inv (k : nat) (t : thread) (P : list nat) : Prop :=
  match t with
  | Loop todo => py_range k M W = P ++ todo
  | Add b todo =>
      ∃ i e, py_range k M W = P ++ i :: todo
             ∧ xs !! i = Some e ∧ b = bin_of xmin bw e
  end.

Definition grid_inv (s : memory * list thread) : Prop :=
  ∃ Ps : list (list nat),
    length s.2 = W ∧ length Ps = W
    ∧ (∀ k t P, s.2 !! k = Some t → Ps !! k = Some P → thread_inv k t P)
    ∧ s.1 = <[out := IntArray (accumulate (bins_at (concat Ps)) h0)]> m0.

Lemma bins_at_snoc idx i e :
  xs !! i = Some e → bins_at (idx ++ [i]) = bins_at idx ++ [bin_of xmin bw e].
Proof. intros Hi. unfold bins_at. rewrite omap_app. cbn. by rewrite Hi. Qed.

Lemma bins_at_perm idx idx' : idx ≡ₚ idx' → bins_at idx ≡ₚ bins_at idx'.
Proof. intros Hp. unfold bins_at. by rewrite Hp. Qed.

Lemma bins_at_all : bins_at (seq 0 M) = bin_of xmin bw <$> xs.
Proof. apply (omap_lookup_seq (bin_of xmin bw) [] xs). Qed.

Lemma grid_inv_init :
  grid_inv (m0, (λ k, Loop (py_range k M W)) <$> seq 0 W).
Proof.
  exists (replicate W []). cbn. split_and!.
  - by rewrite length_fmap, length_seq.
  - by rewrite length_replicate.
  - intros k t P Ht HP. apply lookup_replicate in HP as [-> Hk].
    rewrite list_lookup_fmap, lookup_seq_lt in Ht by done.
    by simplify_eq/=.
  - rewrite concat_replicate_nil. cbn. by rewrite insert_id.
Qed.

Lemma grid_inv_step s k : grid_inv s → grid_inv (grid_step x out xmin bw s k).
Proof.
  destruct s as [m ts]. intros (Ps & Hlen & HlenP & Hth & Hm). cbn in *.
  unfold grid_step. cbn.
  destruct (ts !! k) as [t|] eqn:Hk; [|by exists Ps].
  assert (k < W) as HkW by (apply lookup_lt_Some in Hk; lia).
  destruct (lookup_lt_is_Some_2 Ps k) as [P HP]; [lia|].
  pose proof (Hth k t P Hk HP) as Ht.
  assert (m !! x = Some a) as Hmx by (by rewrite Hm, lookup_insert_ne).
  destruct t as [[|i todo]|b todo]; cbn in Ht |- *.
  - rewrite list_insert_id by done. by exists Ps.
  - rewrite (lookup_total_correct _ _ _ Hmx), getitem_elements.
    assert (i ∈ py_range k M W) as Hi by (rewrite Ht; set_solver).
    apply elem_of_py_range_mod in Hi as [Hi _]; [|done].
    destruct (lookup_lt_is_Some_2 xs i Hi) as [e He]. fold xs. rewrite He.
    exists Ps. cbn. split_and!; [by rewrite length_insert | done | | done].
    intros k' t' P' Ht' HP'. destruct (decide (k = k')) as [<-|Hkk].
    + rewrite list_lookup_insert_eq in Ht' by lia. simplify_eq/=. eauto.
    + rewrite list_lookup_insert_ne in Ht' by done. eauto.
  - destruct Ht as (i & e & Hrange & He & ->).
    exists (<[k := P ++ [i]]> Ps). cbn.
    split_and!; [by rewrite length_insert | by rewrite length_insert | |].
    + intros k' t' P' Ht' HP'. destruct (decide (k = k')) as [<-|Hkk].
      * rewrite list_lookup_insert_eq in Ht' by lia.
        rewrite list_lookup_insert_eq in HP' by lia. simplify_eq/=.
        by rewrite <- (assoc (++)).
      * rewrite list_lookup_insert_ne in Ht' by done.
        rewrite list_lookup_insert_ne in HP' by done. eauto.
    + rewrite (increment_int out _ m (accumulate (bins_at (concat Ps)) h0))
        by (by rewrite Hm, lookup_insert_eq).
      rewrite Hm, insert_insert_eq. do 2 f_equal.
      rewrite (accumulate_perm (bins_at (concat (<[k := P ++ [i]]> Ps)))
                 (bins_at (concat Ps ++ [i])))
        by (by apply bins_at_perm, concat_insert_app).
      by rewrite (bins_at_snoc _ _ e), accumulate_snoc.
Qed.

Lemma grid_inv_run sched s :
  grid_inv s → grid_inv (foldl (grid_step x out xmin bw) s sched).
Proof.
  revert s. induction sched as [|k sched IH]; intros s Hs; [done|].
  cbn. by apply IH, grid_inv_step.
Qed.

(** When every thread has returned, the counters hold what one pass over
    the samples in index order makes of them. *)
Lemma grid_inv_finished s :
  0 < W → grid_inv s → finished s = true →
  s.1 = <[out := IntArray (accumulate (bin_of xmin bw <$> xs) h0)]> m0.
Proof.
  destruct s as [m ts]. intros HW (Ps & Hlen & HlenP & Hth & Hm) Hfin.
  cbn in *. unfold finished in Hfin. cbn in Hfin.
  rewrite forallb_forall in Hfin.
  assert (Ps = (λ k, py_range k M W) <$> seq 0 W) as ->.
  { apply (list_eq_same_length _ _ W); [by rewrite length_fmap, length_seq | done |].
    intros k P P' Hk HP HP'.
    rewrite list_lookup_fmap, lookup_seq_lt in HP' by done. simplify_eq/=.
    destruct (lookup_lt_is_Some_2 ts k) as [t Ht]; [lia|].
    specialize (Hth k t P Ht HP).
    assert (returned t = true) as Hr.
    { apply Hfin, list_elem_of_In, list_elem_of_lookup. eauto. }
    destruct t as [[|??]|??]; simplify_eq/=. by rewrite app_nil_r in Hth. }
  rewrite Hm. do 2 f_equal.
  rewrite (accumulate_perm _ (bins_at (seq 0 M)))
    by (by apply bins_at_perm, grid_stride_partition).
  by rewrite bins_at_all.
Qed.

End schedule.

Lemma cuda_histogram_finished {platform : Platform} gridDim blockDim sched x out xmin xmax a m h :
  x ≠ out →
  m !! x = Some a →
  m !! out = Some (IntArray h) →
  0 < gridDim → 0 < blockDim →
  finished (cuda_histogram gridDim blockDim sched x xmin xmax out m) = true →
  (cuda_histogram gridDim blockDim sched x xmin xmax out m).1
  = store_of (cpu_histogram x xmin xmax out m).
Proof.
  intros Hne Hx Hout Hg Hb Hfin.
  rewrite (cpu_histogram_accumulate x out xmin xmax a m h) by done.
  unfold cuda_histogram in *. rewrite launch_seq in *.
  rewrite (lookup_total_correct _ _ _ Hx), (lookup_total_correct _ _ _ Hout) in *.
  cbn [shape0] in *. rewrite (shape0_elements a) in *.
  eapply (grid_inv_finished x out xmin _ a m h (gridDim * blockDim));
    [done | nia | | done].
  apply grid_inv_run; [done..|]. by apply grid_inv_init.
Qed.

(** ** Every launch can run to completion *)



Section progress.
Context {platform : Platform}.
Context (x out : loc) (xmin : scalar) (bw : float64).
Implicit Types (s : memory * list thread) (t : thread).






Lemma one_by_one_count n (ks : list nat) (j : nat) :
  j ∈ ks →
  n ≤ length (filter (λ k, k = j) (flat_map (λ k, replicate n k) ks)).
Proof.
  induction ks as [|k ks IH]; intros Hj; [by apply elem_of_nil in Hj|].
  cbn [flat_map]. rewrite filter_app, length_app.
  apply elem_of_cons in Hj as [<-|Hj]; [|specialize (IH Hj); lia].
  assert (filter (λ k, k = j) (replicate n j) = replicate n j) as ->.
  { clear. induction n as [|n IHn]; [done|]. cbn [replicate].
    rewrite filter_cons_True by done. by rewrite IHn. }
  rewrite length_replicate. lia.
Qed.


End progress.

Lemma range_length_le start stop step :
  0 < step → range_length start stop step ≤ stop.
Proof.
  intros Hstep. unfold range_length. case_bool_decide; [|lia].
  pose proof (Nat.div_mod_eq (stop - start - 1) step). nia.
Qed.


(** ** Only [histogram_out] is written *)

Section frame.
Context {platform : Platform}.
Implicit Types (m : memory) (l x out : loc).

Lemma increment_frame out b m l : l ≠ out → increment out b m !! l = m !! l.
Proof.
  intros Hl. unfold increment. case_match; [|done].
  by rewrite lookup_insert_ne.
Qed.

Lemma cpu_loop_frame x xmin bw out idx m l :
  l ≠ out → foldl (cpu_body x out xmin bw) m idx !! l = m !! l.
Proof.
  intros Hl. revert m. induction idx as [|i idx IH]; intros m; [done|].
  cbn. rewrite IH. unfold cpu_body.
  destruct (getitem _ _); [by apply increment_frame | done].
Qed.

Lemma cpu_histogram_frame x xmin xmax out m l :
  l ≠ out → store_of (cpu_histogram x xmin xmax out m) !! l = m !! l.
Proof.
  intros Hl. unfold cpu_histogram.
  destruct (width_of _ _ _); cbn [store_of]; [|done].
  by apply cpu_loop_frame.
Qed.

Lemma grid_step_frame x out xmin bw s k l :
  l ≠ out → (grid_step x out xmin bw s k).1 !! l = s.1 !! l.
Proof.
  intros Hl. unfold grid_step. destruct (s.2 !! k) as [t|]; [|done].
  destruct t as [[|i todo]|b todo]; cbn; [done | | by apply increment_frame].
  by destruct (getitem _ _).
Qed.

Lemma cuda_histogram_frame gridDim blockDim sched x xmin xmax out m l :
  l ≠ out →
  (cuda_histogram gridDim blockDim sched x xmin xmax out m).1 !! l = m !! l.
Proof.
  intros Hl. unfold cuda_histogram.
  generalize (bin_width_of xmin xmax (shape0 (m !!! out))) as bw.
  generalize (launch gridDim blockDim (shape0 (m !!! x))) as ts.
  intros ts bw. change (m !! l) with ((m, ts).1 !! l).
  generalize (m, ts) as s. clear m ts.
  induction sched as [|k sched IH]; intros s; [done|].
  cbn. rewrite IH. by apply grid_step_frame.
Qed.

End frame.

(** ** Arithmetic of the counters *)

Section int32.
Local Open Scope Z_scope.

Lemma wrap32_is_int32 z : is_int32 (wrap32 z).
Proof.
  unfold is_int32, wrap32, INT32_MIN, INT32_MAX.
  pose proof (Z.mod_pos_bound (z - -2147483648) (2 ^ 32)). lia.
Qed.

Lemma wrap32_id z : is_int32 z → wrap32 z = z.
Proof.
  unfold is_int32, wrap32, INT32_MIN, INT32_MAX. intros Hz.
  rewrite Z.mod_small by lia. lia.
Qed.

Lemma wrap32_add_l z k : wrap32 (wrap32 z + k) = wrap32 (z + k).
Proof.
  unfold wrap32, INT32_MIN.
  replace ((z - -2147483648) mod 2 ^ 32 + -2147483648 + k - -2147483648)
    with ((z - -2147483648) mod 2 ^ 32 + k) by lia.
  rewrite Zplus_mod_idemp_l. f_equal. f_equal. lia.
Qed.

(** [n] increments of an [int32] counter add [n] modulo [2^32]. *)
Lemma iter_int32_succ n c :
  is_int32 c → Nat.iter n int32_succ c = wrap32 (c + Z.of_nat n).
Proof.
  intros Hc. induction n as [|n IH].
  - cbn. rewrite Z.add_0_r. by rewrite wrap32_id.
  - rewrite Nat.iter_succ, IH. unfold int32_succ. rewrite wrap32_add_l.
    f_equal. lia.
Qed.

Lemma int32_succ_le c : is_int32 c → int32_succ c ≤ c + 1.
Proof.
  intros Hc. unfold int32_succ.
  destruct (decide (c = INT32_MAX)) as [->|Hne]; [by vm_compute|].
  rewrite wrap32_id; [lia|]. unfold is_int32, INT32_MIN, INT32_MAX in *. lia.
Qed.

Lemma int32_succ_small c : 0 ≤ c < INT32_MAX → int32_succ c = c + 1.
Proof.
  intros Hc. apply wrap32_id. unfold is_int32, INT32_MIN, INT32_MAX in *. lia.
Qed.

End int32.

(** ** The total of the counters *)

Lemma length_filter_all {A} (P : A → Prop) `{!∀ a, Decision (P a)}
    (l : list A) :
  length (filter P l) = length l ↔ Forall P l.
Proof.
  induction l as [|a l IH]; [by split|].
  rewrite filter_cons, Forall_cons. pose proof (length_filter P l).
  destruct (decide (P a)) as [Ha|Ha]; cbn [length].
  - rewrite <- IH. split; [intros ?; split; [done | lia] | intros [_ ?]; lia].
  - split; [lia | by intros [? _]].
Qed.

Definition Zsum (l : list Z) : Z := foldr Z.add 0%Z l.

(** The samples whose bin number addresses a counter. *)
Definition in_bounds (nbins : nat) (b : Z) : bool :=
  bool_decide (0 ≤ b)%Z && bool_decide (b < Z.of_nat nbins)%Z.

Section totals.
Context {platform : Platform}.
Local Open Scope Z_scope.

Lemma bump_in_bounds b (h : list Z) :
  bump b h
  = if in_bounds (length h) b then alter int32_succ (Z.to_nat b) h else h.
Proof. done. Qed.

Lemma Zsum_alter i (f : Z → Z) (h : list Z) c :
  h !! i = Some c → Zsum (alter f i h) = Zsum h - c + f c.
Proof.
  revert i. induction h as [|d h IH]; intros [|i] Hi; simplify_eq/=.
  - change (f c + Zsum h = c + Zsum h - c + f c). lia.
  - change (d + Zsum (alter f i h) = d + Zsum h - c + f c).
    rewrite (IH i Hi). lia.
Qed.

Lemma Forall_int32_bump b h : Forall is_int32 h → Forall is_int32 (bump b h).
Proof.
  intros Hh. rewrite bump_in_bounds. destruct (in_bounds _ _); [|done].
  apply Forall_alter; [done|]. intros c _ _. apply wrap32_is_int32.
Qed.

Lemma Zsum_bump_le b h :
  Forall is_int32 h →
  Zsum (bump b h) ≤ Zsum h + (if in_bounds (length h) b then 1 else 0).
Proof.
  intros Hh. rewrite bump_in_bounds.
  destruct (in_bounds (length h) b) eqn:Hb; [|lia].
  unfold in_bounds in Hb. apply andb_true_iff in Hb as [Hlo Hhi].
  apply bool_decide_eq_true in Hlo, Hhi.
  destruct (lookup_lt_is_Some_2 h (Z.to_nat b)) as [c Hc]; [lia|].
  rewrite (Zsum_alter _ _ _ c Hc).
  pose proof (int32_succ_le c (Forall_lookup_1 _ _ _ _ Hh Hc)). lia.
Qed.

Lemma Zsum_accumulate_le bins h n :
  length h = n → Forall is_int32 h →
  Zsum (accumulate bins h)
  ≤ Zsum h + Z.of_nat (length (filter (λ b, in_bounds n b) bins)).
Proof.
  revert h. induction bins as [|b bins IH]; intros h Hn Hh.
  - change (Zsum h ≤ Zsum h + 0). lia.
  - rewrite accumulate_cons.
    etrans; [apply IH; [by rewrite length_bump | by apply Forall_int32_bump]|].
    pose proof (Zsum_bump_le b h Hh) as Hle. rewrite Hn in Hle.
    rewrite filter_cons. destruct (in_bounds n b).
    + rewrite decide_True by exact I. cbn [length]. lia.
    + rewrite decide_False by (by intros []). lia.
Qed.

Lemma Zsum_np_zeros n : Zsum (np_zeros n) = 0.
Proof.
  unfold np_zeros. induction n as [|n IH]; [done|].
  change (0 + Zsum (replicate n 0) = 0). lia.
Qed.

Lemma Forall_int32_np_zeros n : Forall is_int32 (np_zeros n).
Proof. apply Forall_replicate. by vm_compute. Qed.

(** The counters of a histogram add up to at most the number of samples
    that were counted, which is at most the number of samples. *)
Lemma Zsum_histogram_le xs xmin xmax nbins :
  Zsum (histogram xs xmin xmax nbins) ≤ Z.of_nat (length xs).
Proof.
  unfold histogram. rewrite cpu_counts_accumulate.
  etrans; [apply (Zsum_accumulate_le _ _ nbins)|].
  - unfold np_zeros. by rewrite length_replicate.
  - apply Forall_int32_np_zeros.
  - rewrite Zsum_np_zeros.
    unfold np_zeros. rewrite length_replicate.
    apply (Z.le_trans _ (Z.of_nat (length (bins_of xmin xmax nbins xs)))).
    + pose proof (length_filter (λ b, in_bounds nbins b)
                    (bins_of xmin xmax nbins xs)). lia.
    + unfold bins_of. rewrite length_fmap. lia.
Qed.

End totals.

(** ** The bin index of the specification *)

(** The rule of the specification, in its words:
    [bin_index = floor((v - low) / bin_width)] with
    [bin_width = (high - low) / bin_count]. *)
Definition spec_bin_index (v low high : Q) (bin_count : Z) : Z :=
  Qfloor ((v - low) / ((high - low) / inject_Z bin_count)).

(** ** A call with no counter *)

Section no_counter.
Context {platform : Platform}.

Lemma increment_no_counter out b m :
  shape0 (m !!! out) = 0 → increment out b m = m.
Proof.
  intros H0. unfold increment. rewrite H0.
  destruct (bool_decide (0 ≤ b)%Z) eqn:Hlo; [|done].
  apply bool_decide_eq_true in Hlo.
  by rewrite (bool_decide_eq_false_2 (b < Z.of_nat 0)%Z) by lia.
Qed.

Lemma cpu_loop_no_counter x out xmin bw idx m :
  shape0 (m !!! out) = 0 → foldl (cpu_body x out xmin bw) m idx = m.
Proof.
  intros H0. induction idx as [|i idx IH]; [done|].
  cbn. unfold cpu_body at 2. destruct (getitem _ _); [|done].
  by rewrite increment_no_counter.
Qed.

End no_counter.

(** ** The claims *)

(** C1: the specification assigns a sample the bin
    [floor((v - low) / bin_width)] and drops every sample outside
    [[low, high)].  The code converts the quotient with [np.int32], which
    rounds towards zero: for the range [[0, 8)] with 4 bins the sample [-1]
    has bin index [-1] by the rule of the specification, but both kernels
    count it in bin 0.  The quotient is [-0.5], computed exactly, so the
    platform plays no part. *)
Theorem C1_sample_below_low_is_counted {platform : Platform} :
  spec_bin_index (-1) 0 8 4 = (-1)%Z
  ∧ bin_of (PyFloat (of_int 0))
      (bin_width_of (PyFloat (of_int 0)) (PyFloat (of_int 8)) 4) (of_int (-1))
    = 0%Z
  ∧ histogram [of_int (-1)] (PyFloat (of_int 0)) (PyFloat (of_int 8)) 4
    = [1; 0; 0; 0]%Z
  ∧ cuda_counts 1 1 [0; 0] [of_int (-1)] (PyFloat (of_int 0))
      (PyFloat (of_int 8)) (np_zeros 4)
    = [1; 0; 0; 0]%Z.
Proof. by vm_compute. Qed.

(** C2, as the specification states it, fails: with [low = 2 >= high = 0]
    the call returns normally and has incremented a counter. *)
Lemma C2_invalid_range_is_accumulated :
  (0 <= 2)%Q
  ∧ (∃ m, cpu_call (platform := cvttsd2si) [of_int 1] (PyFloat (of_int 2))
            (PyFloat (of_int 0)) [0; 0]%Z = Returned m)
  ∧ histogram (platform := cvttsd2si) [of_int 1] (PyFloat (of_int 2))
      (PyFloat (of_int 0)) 2 = [0; 1]%Z
  ∧ histogram (platform := cvttsd2si) [of_int 1] (PyFloat (of_int 2))
      (PyFloat (of_int 0)) 2 ≠ np_zeros 2.
Proof.
  split; [by vm_compute|]. split; [eexists; by vm_compute|].
  by vm_compute.
Qed.

(** C2, amended: [cpu_histogram] validates nothing, and the range is never
    examined.  A call either raises [ZeroDivisionError], which it does
    exactly when there is no counter and both bounds are Python floats, and
    then every array is as it was; or it returns, and when there is no
    counter it returns with every array as it was.  So a call with at
    least one counter returns whatever the range, also for
    [low >= high]. *)
Theorem C2_no_validation {platform : Platform} x xmin xmax out (m : memory) :
  (cpu_histogram x xmin xmax out m = Raised ZeroDivisionError m
   ∧ shape0 (m !!! out) = 0
   ∧ is_python xmin = true ∧ is_python xmax = true)
  ∨ (∃ m', cpu_histogram x xmin xmax out m = Returned m'
           ∧ ¬ (shape0 (m !!! out) = 0
                ∧ is_python xmin = true ∧ is_python xmax = true)
           ∧ (shape0 (m !!! out) = 0 → m' = m)).
Proof.
  unfold cpu_histogram, width_of.
  destruct (is_python xmin) eqn:Hmin, (is_python xmax) eqn:Hmax; cbn [andb].
  - case_bool_decide as Hn.
    + by left.
    + right. eexists. split; [done|]. split; [by intros (? & _)|]. done.
  - right. eexists. split; [done|]. split; [by intros (_ & _ & ?)|].
    apply cpu_loop_no_counter.
  - right. eexists. split; [done|]. split; [by intros (_ & ? & _)|].
    apply cpu_loop_no_counter.
  - right. eexists. split; [done|]. split; [by intros (_ & ? & _)|].
    apply cpu_loop_no_counter.
Qed.

(** C3: the specification has the counters add up to the number of samples
    exactly when all samples lie in [[low, high)].  The total never exceeds
    the number of samples ([Zsum_histogram_le]), but the code reaches it
    with a sample outside the range: for the range [[0, 8)] with 4 bins the
    single sample [-1] is below [low] and the counters add up to 1. *)
Theorem C3_total_is_reached_outside_the_range {platform : Platform} :
  ¬ (0 <= -1)%Q
  ∧ Zsum (histogram [of_int (-1)] (PyFloat (of_int 0)) (PyFloat (of_int 8)) 4)
    = Z.of_nat (length [of_int (-1)]).
Proof. by vm_compute. Qed.



(** C5: with [W >= 1] workers, worker [k] walking
    [range(k, M, W)], the walks of two different workers have no index in
    common, the indices walked are exactly those below [M], and a worker
    with [k >= M] walks nothing. *)
Theorem C5_grid_stride_partition M W :
  0 < W →
  (∀ k1 k2 i,
     k1 < W → k2 < W → i ∈ py_range k1 M W → i ∈ py_range k2 M W → k1 = k2)
  ∧ (∀ i, i < M ↔ ∃ k, k < W ∧ i ∈ py_range k M W)
  ∧ (∀ k, M ≤ k → py_range k M W = [])
  ∧ concat ((λ k, py_range k M W) <$> seq 0 W) ≡ₚ seq 0 M.
Proof.
  intros HW. split_and!.
  - intros k1 k2 i H1 H2 Hi1 Hi2.
    apply elem_of_py_range_mod in Hi1, Hi2; lia.
  - intros i. split.
    + intros Hi. exists (i mod W).
      assert (i mod W < W) by (apply Nat.mod_upper_bound; lia).
      split; [done|]. by apply elem_of_py_range_mod.
    + intros (k & Hk & Hi). by apply elem_of_py_range_mod in Hi as [? _].
  - intros k Hk. by apply py_range_nil.
  - by apply grid_stride_partition.
Qed.

Lemma C5_witness :
  0 < 4
  ∧ (∀ k1 k2 i,
       k1 < 4 → k2 < 4 → i ∈ py_range k1 3 4 → i ∈ py_range k2 3 4 → k1 = k2)
  ∧ (∀ i, i < 3 ↔ ∃ k, k < 4 ∧ i ∈ py_range k 3 4)
  ∧ (∀ k, 3 ≤ k → py_range k 3 4 = [])
  ∧ concat ((λ k, py_range k 3 4) <$> seq 0 4) ≡ₚ seq 0 3.
Proof. split; [lia|]. apply (C5_grid_stride_partition 3 4). lia. Defined.

(** C6: the specification leaves a sample equal to [high] out.  The code
    divides by a bin width that has been rounded: for the range [[0, 9)]
    with 7 bins the width [9/7] is rounded down, the quotient of the
    sample [9] by it is rounded to the value just below 7, [np.int32]
    makes it 6, and both kernels count the sample, which is equal to
    [high], in the last bin.  All values are within the range of the
    conversion, so the platform plays no part. *)
Theorem C6_sample_at_high_is_counted {platform : Platform} :
  bin_width_of (PyFloat (of_int 0)) (PyFloat (of_int 9)) 7
  = S754_finite false 5790342378047781 (-52)
  ∧ np_div (np_sub (of_int 9) (of_int 0))
      (bin_width_of (PyFloat (of_int 0)) (PyFloat (of_int 9)) 7)
    = S754_finite false 7881299347898367 (-50)
  ∧ bin_of (PyFloat (of_int 0))
      (bin_width_of (PyFloat (of_int 0)) (PyFloat (of_int 9)) 7) (of_int 9)
    = 6%Z
  ∧ histogram [of_int 9] (PyFloat (of_int 0)) (PyFloat (of_int 9)) 7
    = [0; 0; 0; 0; 0; 0; 1]%Z
  ∧ cuda_counts 1 1 [0; 0] [of_int 9] (PyFloat (of_int 0))
      (PyFloat (of_int 9)) (np_zeros 7)
    = [0; 0; 0; 0; 0; 0; 1]%Z.
Proof. by vm_compute. Qed.

(** C7: with no samples the histogram is [bin_count] zeros, for every
    range and every [bin_count], and with [bin_count > 0] the call
    returns. *)
Theorem C7_no_samples {platform : Platform} xmin xmax nbins :
  histogram [] xmin xmax nbins = np_zeros nbins
  ∧ length (histogram [] xmin xmax nbins) = nbins
  ∧ (∀ i c, histogram [] xmin xmax nbins !! i = Some c → c = 0%Z)
  ∧ (0 < nbins →
     cpu_call [] xmin xmax (np_zeros nbins)
     = Returned (two_arrays [] (np_zeros nbins))).
Proof.
  assert (histogram [] xmin xmax nbins = np_zeros nbins) as ->.
  { unfold histogram. by rewrite cpu_counts_accumulate. }
  unfold np_zeros. split_and!; [done | apply length_replicate | |].
  - intros i c Hi. by apply lookup_replicate in Hi as [-> _].
  - intros Hn. unfold cpu_call, cpu_histogram, width_of.
    assert (two_arrays [] (replicate nbins 0%Z) !!! out_loc
            = IntArray (replicate nbins 0%Z)) as -> by done.
    cbn [shape0]. rewrite length_replicate.
    rewrite (bool_decide_eq_false_2 (nbins = 0)) by lia.
    by rewrite andb_false_r.
Qed.

(** C8: the counters a call leaves depend on the samples only up to their
    order. *)
Theorem C8_order_of_samples_is_immaterial {platform : Platform}
    xs xs' xmin xmax h :
  xs ≡ₚ xs' → cpu_counts xs' xmin xmax h = cpu_counts xs xmin xmax h.
Proof.
  intros Hp. rewrite !cpu_counts_accumulate. apply accumulate_perm.
  unfold bins_of. by rewrite Hp.
Qed.

Lemma C8_witness :
  [of_int 1; of_int 5; of_int 7] ≡ₚ [of_int 5; of_int 7; of_int 1]
  ∧ cpu_counts (platform := cvttsd2si) [of_int 5; of_int 7; of_int 1]
      (PyFloat (of_int 0)) (PyFloat (of_int 8)) [0; 0]%Z
    = cpu_counts (platform := cvttsd2si) [of_int 1; of_int 5; of_int 7]
        (PyFloat (of_int 0)) (PyFloat (of_int 8)) [0; 0]%Z.
Proof.
  assert ([of_int 1; of_int 5; of_int 7] ≡ₚ [of_int 5; of_int 7; of_int 1])
    as Hp.
  { apply (Permutation_cons_append [of_int 5; of_int 7] (of_int 1)). }
  split; [exact Hp|].
  apply (C8_order_of_samples_is_immaterial (platform := cvttsd2si) _ _
           (PyFloat (of_int 0)) (PyFloat (of_int 8)) [0; 0]%Z Hp).
Defined.

(** C9: both kernels write to [histogram_out] only.  Every array other
    than [histogram_out], and so the array of the samples, which the
    notebook keeps apart from the counters, is after the call element for
    element what it was before: for [cpu_histogram] however it ends, and
    for [cuda_histogram] at every moment of every schedule of its
    threads. *)
Theorem C9_only_histogram_out_is_written {platform : Platform}
    gridDim blockDim sched x xmin xmax out (m : memory) l :
  l ≠ out →
  store_of (cpu_histogram x xmin xmax out m) !! l = m !! l
  ∧ (cuda_histogram gridDim blockDim sched x xmin xmax out m).1 !! l = m !! l.
Proof.
  intros Hl. split.
  - by apply cpu_histogram_frame.
  - by apply cuda_histogram_frame.
Qed.

Lemma C9_witness :
  x_loc ≠ out_loc
  ∧ store_of (cpu_histogram (platform := cvttsd2si) x_loc (PyFloat (of_int 0))
             (PyFloat (of_int 8)) out_loc
             (two_arrays [of_int 1; of_int 5] [0; 0]%Z)) !! x_loc
    = two_arrays [of_int 1; of_int 5] [0; 0]%Z !! x_loc
  ∧ (cuda_histogram (platform := cvttsd2si) 1 2 [0; 1; 1; 0] x_loc
       (PyFloat (of_int 0)) (PyFloat (of_int 8)) out_loc
       (two_arrays [of_int 1; of_int 5] [0; 0]%Z)).1 !! x_loc
    = two_arrays [of_int 1; of_int 5] [0; 0]%Z !! x_loc.
Proof.
  split; [done|].
  apply (C9_only_histogram_out_is_written (platform := cvttsd2si) 1 2 [0; 1; 1; 0]
           x_loc (PyFloat (of_int 0)) (PyFloat (of_int 8)) out_loc
           (two_arrays [of_int 1; of_int 5] [0; 0]%Z) x_loc).
  done.
Defined.

(** C10, as stated, fails: the counters are [int32].  A counter that
    holds 2147483647 and is assigned one sample ends at -2147483648, not at
    its initial value plus one. *)
Lemma C10_counter_wraps_around :
  assigned (platform := cvttsd2si) (PyFloat (of_int 0)) (PyFloat (of_int 8)) 2
    [of_int 1] 0 = 1%Z
  ∧ cpu_counts (platform := cvttsd2si) [of_int 1] (PyFloat (of_int 0))
      (PyFloat (of_int 8)) [2147483647; 5]%Z
    = [-2147483648; 5]%Z
  ∧ cpu_counts (platform := cvttsd2si) [of_int 1] (PyFloat (of_int 0))
      (PyFloat (of_int 8)) [2147483647; 5]%Z !! 0
    ≠ Some (2147483647 + 1)%Z.
Proof. by vm_compute. Qed.

(** C10, amended: a call adds to the counters it finds, in the arithmetic
    of [int32].  It keeps their number; each counter ends at its initial
    value plus the number of samples the code assigns to it, reduced
    modulo [2^32] to the range of [int32], which is that sum itself when
    the sum is at most 2147483647; a second call on the same samples adds
    the same amounts again; and with no sample to count the result is the
    initial array, so it is all zeros only if the caller passed zeros. *)
Theorem C10_counters_are_added_to {platform : Platform} xs xmin xmax h :
  Forall is_int32 h →
  length (cpu_counts xs xmin xmax h) = length h
  ∧ (∀ i c,
       h !! i = Some c →
       cpu_counts xs xmin xmax h !! i
       = Some (wrap32 (c + assigned xmin xmax (length h) xs i)))
  ∧ (∀ i c,
       h !! i = Some c →
       (c + assigned xmin xmax (length h) xs i ≤ INT32_MAX)%Z →
       cpu_counts xs xmin xmax h !! i
       = Some (c + assigned xmin xmax (length h) xs i)%Z)
  ∧ (∀ i c,
       h !! i = Some c →
       cpu_counts xs xmin xmax (cpu_counts xs xmin xmax h) !! i
       = Some (wrap32 (c + 2 * assigned xmin xmax (length h) xs i)))
  ∧ cpu_counts [] xmin xmax h = h
  ∧ (cpu_counts [] xmin xmax h = np_zeros (length h)
     ↔ h = np_zeros (length h)).
Proof.
  intros Hh.
  assert (∀ h' i c,
            h' !! i = Some c → is_int32 c →
            cpu_counts xs xmin xmax h' !! i
            = Some (wrap32 (c + assigned xmin xmax (length h') xs i))) as Hadd.
  { intros h' i c Hi Hc.
    rewrite cpu_counts_accumulate, lookup_accumulate, Hi. cbn.
    by rewrite iter_int32_succ. }
  assert (length (cpu_counts xs xmin xmax h) = length h) as Hlen.
  { rewrite cpu_counts_accumulate. apply length_accumulate. }
  assert (cpu_counts [] xmin xmax h = h) as Hnil.
  { by rewrite cpu_counts_accumulate. }
  split_and!; [done | | | | done | by rewrite Hnil].
  - intros i c Hi. apply Hadd; [done|]. by eapply Forall_lookup_1.
  - intros i c Hi Hmax.
    pose proof (Forall_lookup_1 _ _ _ _ Hh Hi) as Hc.
    rewrite (Hadd h i c Hi Hc). f_equal. apply wrap32_id.
    unfold assigned, is_int32 in *. lia.
  - intros i c Hi. pose proof (Forall_lookup_1 _ _ _ _ Hh Hi) as Hc.
    rewrite (Hadd _ i _ (Hadd h i c Hi Hc) (wrap32_is_int32 _)), Hlen.
    f_equal. rewrite wrap32_add_l. f_equal. lia.
Qed.

Lemma C10_witness :
  Forall is_int32 [2147483646; 0]%Z
  ∧ [2147483646; 0]%Z !! 0 = Some 2147483646%Z
  ∧ cpu_counts (platform := cvttsd2si) [of_int 1; of_int 5; of_int 2]
      (PyFloat (of_int 0)) (PyFloat (of_int 8)) [2147483646; 0]%Z !! 0
    = Some (wrap32 (2147483646
                    + assigned (platform := cvttsd2si) (PyFloat (of_int 0))
                        (PyFloat (of_int 8)) (length [2147483646; 0]%Z)
                        [of_int 1; of_int 5; of_int 2] 0))
  ∧ cpu_counts (platform := cvttsd2si) [of_int 1; of_int 5; of_int 2]
      (PyFloat (of_int 0)) (PyFloat (of_int 8))
      (cpu_counts (platform := cvttsd2si) [of_int 1; of_int 5; of_int 2]
         (PyFloat (of_int 0)) (PyFloat (of_int 8)) [2147483646; 0]%Z) !! 0
    = Some (wrap32 (2147483646
                    + 2 * assigned (platform := cvttsd2si) (PyFloat (of_int 0))
                            (PyFloat (of_int 8)) (length [2147483646; 0]%Z)
                            [of_int 1; of_int 5; of_int 2] 0)).
Proof.
  assert (Forall is_int32 [2147483646; 0]%Z) as Hh.
  { repeat constructor; by vm_compute. }
  pose proof (C10_counters_are_added_to (platform := cvttsd2si)
                [of_int 1; of_int 5; of_int 2] (PyFloat (of_int 0))
                (PyFloat (of_int 8)) [2147483646; 0]%Z Hh)
    as (_ & Hadd & _ & Htwice & _).
  split; [exact Hh|]. split; [reflexivity|].
  split; [apply Hadd | apply Htwice]; reflexivity.
Defined.


(** * The other kernels of the notebook

    [add_kernel], [first_kernel2] and the two thread counters are generic
    in the element type of their arrays: Numba compiles them for whatever
    arrays they are called with.  They are modelled over an arbitrary
    element type with its addition, so that what is proved holds for
    [float32] with its rounding as for [int32] with its wrap-around.

    A CUDA kernel compiled by Numba checks no array bounds: an access
    outside an array is undefined.  Here such an access makes the step, and
    with it the run, undefined ([None]). *)

(** ** Threads that step under a schedule *)

Section pool.
Context {M T : Type}.
(** One step of one thread on the shared memory. *)
Context (tstep : M → T → option (M * T)).
(** The steps a thread has still to take. *)
Context (left : T → nat).
Implicit Types (s : M * list T) (sched : list nat).

(** The thread at position [k] takes one step. *)
Definition pool_step s (k : nat) : option (M * list T) :=
  match s.2 !! k with
  | Some t =>
      match tstep s.1 t with
      | Some (m', t') => Some (m', <[k := t']> s.2)
      | None => None
      end
  | None => Some s
  end.

(** The threads listed in [sched] step, in that order. *)
Fixpoint pool_run sched s : option (M * list T) :=
  match sched with
  | [] => Some s
  | k :: sched =>
      match pool_step s k with
      | Some s' => pool_run sched s'
      | None => None
      end
  end.

(** Every thread has returned. *)
Definition pool_done s : Prop := Forall (λ t, left t = 0) s.2.

Lemma pool_run_app sched sched' s :
  pool_run (sched ++ sched') s
  = match pool_run sched s with
    | Some s' => pool_run sched' s'
    | None => None
    end.
Proof.
  revert s. induction sched as [|k sched IH]; intros s; [done|].
  cbn. destruct (pool_step s k); [apply IH | done].
Qed.

(** An invariant under which no step is undefined makes every schedule
    run, and holds at its end. *)
Lemma pool_run_inv (Inv : M * list T → Prop) sched s :
  (∀ s k, Inv s → ∃ s', pool_step s k = Some s' ∧ Inv s') →
  Inv s → ∃ s', pool_run sched s = Some s' ∧ Inv s'.
Proof.
  intros Hstep. revert s. induction sched as [|k sched IH]; intros s Hs.
  - by exists s.
  - destruct (Hstep s k Hs) as (s1 & H1 & Hs1). cbn. rewrite H1. by apply IH.
Qed.

Hypothesis tstep_left :
  ∀ m t m' t', tstep m t = Some (m', t') → left t' ≤ left t - 1.

Lemma pool_step_lookup s k s' j t :
  pool_step s k = Some s' → s.2 !! j = Some t →
  ∃ t', s'.2 !! j = Some t'
        ∧ left t' ≤ left t - (if decide (k = j) then 1 else 0).
Proof.
  unfold pool_step. intros Hstep Hj.
  destruct (s.2 !! k) as [tk|] eqn:Hk.
  - destruct (tstep s.1 tk) as [[m' t'']|] eqn:Ht; [|done].
    simplify_eq/=. destruct (decide (k = j)) as [->|Hkj].
    + exists t''. rewrite list_lookup_insert_eq by (by eapply lookup_lt_Some).
      simplify_eq. split; [done|]. by eapply tstep_left.
    + exists t. rewrite list_lookup_insert_ne by done. split; [done | lia].
  - simplify_eq. exists t. split; [done|]. case_decide; [congruence | lia].
Qed.

Lemma pool_run_lookup sched s s' j t :
  pool_run sched s = Some s' → s.2 !! j = Some t →
  ∃ t', s'.2 !! j = Some t'
        ∧ left t' ≤ left t - length (filter (λ k, k = j) sched).
Proof.
  revert s t. induction sched as [|k sched IH]; intros s t Hrun Hj.
  - simplify_eq/=. exists t. split; [done | lia].
  - cbn in Hrun. destruct (pool_step s k) as [s1|] eqn:H1; [|done].
    destruct (pool_step_lookup s k s1 j t H1 Hj) as (t1 & Ht1 & Hle1).
    destruct (IH _ _ Hrun Ht1) as (t' & Ht' & Hle'). exists t'.
    split; [done|]. rewrite filter_cons. destruct (decide (k = j)); cbn; lia.
Qed.

Lemma pool_run_length sched s s' :
  pool_run sched s = Some s' → length s'.2 = length s.2.
Proof.
  revert s. induction sched as [|k sched IH]; intros s Hrun.
  - by simplify_eq/=.
  - cbn in Hrun. destruct (pool_step s k) as [s1|] eqn:H1; [|done].
    rewrite (IH _ Hrun). unfold pool_step in H1.
    destruct (s.2 !! k); [|by simplify_eq].
    destruct (tstep _ _) as [[??]|]; simplify_eq/=. apply length_insert.
Qed.

(** Letting the threads run one after the other, each for [n] steps,
    brings every thread that needs no more than [n] steps to its end. *)
Definition in_turn (n W : nat) : list nat :=
  flat_map (λ k, replicate n k) (seq 0 W).

Lemma pool_run_in_turn (Inv : M * list T → Prop) n s :
  (∀ s k, Inv s → ∃ s', pool_step s k = Some s' ∧ Inv s') →
  Inv s → Forall (λ t, left t ≤ n) s.2 →
  ∃ s', pool_run (in_turn n (length s.2)) s = Some s' ∧ Inv s' ∧ pool_done s'.
Proof.
  intros Hstep Hs Hn.
  destruct (pool_run_inv Inv (in_turn n (length s.2)) s Hstep Hs)
    as (s' & Hrun & Hs').
  exists s'. split_and!; [done..|].
  apply Forall_lookup. intros j t' Hj.
  destruct (lookup_lt_is_Some_2 s.2 j) as [t Ht].
  { apply lookup_lt_Some in Hj. by rewrite (pool_run_length _ _ _ Hrun) in Hj. }
  destruct (pool_run_lookup _ _ _ j t Hrun Ht) as (t'' & Ht'' & Hle).
  simplify_eq. pose proof (Forall_lookup_1 _ _ _ _ Hn Ht) as Hleft.
  cbn in Hleft.
  pose proof (one_by_one_count n (seq 0 (length s.2)) j) as Hcount.
  unfold in_turn in *. apply lookup_lt_Some in Ht.
  specialize (Hcount ltac:(apply elem_of_seq; lia)). lia.
Qed.

End pool.

(** ** Walks of the threads of a grid-stride loop *)

(** [Ps] records, for each of the [W] threads, the indices it has dealt
    with: an initial part of its walk [range(k, n, W)]. *)
Definition walks (W n : nat) (Ps : list (list nat)) : Prop :=
  length Ps = W ∧ ∀ k P, Ps !! k = Some P → P `prefix_of` py_range k n W.

Section walks.
Context (W n : nat).
Implicit Types (Ps : list (list nat)) (P todo : list nat).

Lemma walks_init : walks W n (replicate W []).
Proof.
  split; [apply length_replicate|]. intros k P HP.
  apply lookup_replicate in HP as [-> _]. apply prefix_nil.
Qed.

Lemma elem_of_concat_walks Ps i :
  walks W n Ps → i ∈ concat Ps →
  ∃ P, Ps !! (i mod W) = Some P ∧ i ∈ P ∧ i < n.
Proof.
  intros [Hlen Hpre] Hi. apply list_elem_of_In, in_concat in Hi.
  destruct Hi as (P & HP & Hi). apply list_elem_of_In in Hi.
  apply list_elem_of_In in HP. apply list_elem_of_lookup in HP as [k Hk].
  assert (k < W) by (apply lookup_lt_Some in Hk; lia).
  destruct (Hpre k P Hk) as [rest Hrest].
  assert (i ∈ py_range k n W) as Hin by (rewrite Hrest; set_solver).
  apply elem_of_py_range_mod in Hin as [? <-]; [|done]. eauto.
Qed.

(** The next index of a thread has been dealt with by no thread. *)
Lemma walks_next_fresh Ps k P i todo :
  walks W n Ps → Ps !! k = Some P → py_range k n W = P ++ i :: todo →
  (i ∉ concat Ps) ∧ i < n ∧ i mod W = k.
Proof.
  intros HPs HP Hrange.
  assert (k < W) by (destruct HPs as [<- _]; by eapply lookup_lt_Some).
  assert (i ∈ py_range k n W) as Hin by (rewrite Hrange; set_solver).
  apply elem_of_py_range_mod in Hin as [Hi Hmod]; [|done].
  split_and!; [|done..].
  pose proof (NoDup_py_range k n W ltac:(lia)) as Hnd.
  rewrite Hrange in Hnd. apply NoDup_app in Hnd as (_ & Hdisj & _).
  intros Hcat.
  destruct (elem_of_concat_walks Ps i HPs Hcat) as (P' & HP' & Hi' & _).
  rewrite Hmod in HP'. assert (P' = P) as -> by congruence.
  apply (Hdisj i Hi'). left.
Qed.

Lemma walks_extend Ps k P i todo :
  walks W n Ps → Ps !! k = Some P → py_range k n W = P ++ i :: todo →
  walks W n (<[k := P ++ [i]]> Ps)
  ∧ ∀ j, j ∈ concat (<[k := P ++ [i]]> Ps) ↔ j ∈ concat Ps ∨ j = i.
Proof.
  intros [Hlen Hpre] HP Hrange. split_and!.
  - split; [by rewrite length_insert|]. intros k' P' HP'.
    destruct (decide (k = k')) as [<-|Hkk].
    + rewrite list_lookup_insert_eq in HP' by (by eapply lookup_lt_Some).
      simplify_eq. exists todo. by rewrite <- (assoc (++)).
    + rewrite list_lookup_insert_ne in HP' by done. by apply Hpre.
  - intros j.
    by rewrite (concat_insert_app Ps k P [i] HP), elem_of_app,
      list_elem_of_singleton.
Qed.

(** When every thread is at the end of its walk, the indices dealt with
    are those below [n]. *)
Lemma walks_complete Ps i :
  0 < W → walks W n Ps →
  (∀ k P, Ps !! k = Some P → P = py_range k n W) →
  i ∈ concat Ps ↔ i < n.
Proof.
  intros HW [Hlen Hpre] Hall.
  assert (Ps = (λ k, py_range k n W) <$> seq 0 W) as ->.
  { apply (list_eq_same_length _ _ W);
      [by rewrite length_fmap, length_seq | done |].
    intros k P P' Hk HP HP'.
    rewrite list_lookup_fmap, lookup_seq_lt in HP' by done. simplify_eq/=.
    by apply Hall. }
  rewrite (grid_stride_partition n W HW). rewrite elem_of_seq. lia.
Qed.

End walks.

(** The threads of a launch, block after block, have the offsets
    [0, 1, ..., gridDim * blockDim - 1]. *)
Lemma flat_map_grid {B} (F : nat → B) gridDim blockDim :
  flat_map (λ b, map (λ t, F (t + b * blockDim)) (seq 0 blockDim))
           (seq 0 gridDim)
  = F <$> seq 0 (gridDim * blockDim).
Proof.
  change (seq 0 (gridDim * blockDim)) with (seq (0 * blockDim) (gridDim * blockDim)).
  generalize 0 at 2 3 as s.
  induction gridDim as [|g IH]; intros s; [done|].
  cbn [seq flat_map]. rewrite IH.
  replace (S g * blockDim) with (blockDim + g * blockDim) by lia.
  rewrite seq_app, fmap_app. f_equal.
  - rewrite <- (Nat.add_0_r (s * blockDim)) at 1.
    rewrite <- (fmap_add_seq (s * blockDim) 0 blockDim).
    rewrite <- list_fmap_compose. apply list_fmap_ext. intros _ j _. cbn.
    f_equal. lia.
  - f_equal. f_equal. lia.
Qed.

Lemma lookup_insert_both {T} (I : nat → T → list nat → Prop)
    (ts : list T) (Ps : list (list nat)) k t' P' :
  (∀ j t P, ts !! j = Some t → Ps !! j = Some P → I j t P) →
  I k t' P' →
  ∀ j t P,
    <[k := t']> ts !! j = Some t → <[k := P']> Ps !! j = Some P → I j t P.
Proof.
  intros Hall Hk j t P Ht HP.
  apply list_lookup_insert_Some in Ht as [(-> & -> & _)|[Hne Ht]];
    apply list_lookup_insert_Some in HP as [(? & -> & _)|[? HP]];
    try done. by eapply Hall.
Qed.

(** ** [add_kernel] *)

Section add_kernel.
Context {A : Type} (add : A → A → A).
Implicit Types (m : gmap loc (list A)) (a x y out : loc).

(** [a[i]] *)
Definition load m a (i : nat) : option A :=
  match m !! a with
  | Some l => l !! i
  | None => None
  end.

(** [a[i] = v] *)
Definition store m a (i : nat) (v : A) : option (gmap loc (list A)) :=
  match m !! a with
  | Some l =>
      if bool_decide (i < length l) then Some (<[a := <[i := v]> l]> m)
      else None
  | None => None
  end.

(** A thread of [add_kernel] is at the head of its loop, or in the middle
    of [out[i] = x[i] + y[i]] with [x[i]], or [x[i]] and [y[i]], loaded. *)
Inductive add_thread : Type :=
| AddLoop (todo : list nat)
| AddX (i : nat) (xi : A) (todo : list nat)
| AddXY (i : nat) (xi yi : A) (todo : list nat).

Definition add_step x y out m (t : add_thread)
    : option (gmap loc (list A) * add_thread) :=
  match t with
  | AddLoop [] => Some (m, AddLoop [])
  | AddLoop (i :: todo) =>
      match load m x i with
      | Some xi => Some (m, AddX i xi todo)
      | None => None
      end
  | AddX i xi todo =>
      match load m y i with
      | Some yi => Some (m, AddXY i xi yi todo)
      | None => None
      end
  | AddXY i xi yi todo =>
      match store m out i (add xi yi) with
      | Some m' => Some (m', AddLoop todo)
      | None => None
      end
  end.

Definition add_left (t : add_thread) : nat :=
  match t with
  | AddLoop todo => 3 * length todo
  | AddX _ _ todo => 3 * length todo + 2
  | AddXY _ _ _ todo => 3 * length todo + 1
  end.

(** The first [add_kernel] of the notebook computes its offsets itself:
    [start = tx + ty * block_size], [stride = block_size * grid_size]. *)
Definition add_launch_explicit (gridDim blockDim n : nat) : list add_thread :=
  flat_map
    (λ ty,
       map (λ tx,
              let block_size := blockDim in
              let grid_size := gridDim in
              let start := tx + ty * block_size in
              let stride := block_size * grid_size in
              AddLoop (py_range start n stride))
           (seq 0 blockDim))
    (seq 0 gridDim).

(** The second one asks [cuda.grid(1)] and [cuda.gridsize(1)]. *)
Definition add_launch (gridDim blockDim n : nat) : list add_thread :=
  flat_map
    (λ blockIdx,
       map (λ threadIdx,
              AddLoop (py_range (cuda_grid blockIdx blockDim threadIdx) n
                         (cuda_gridsize gridDim blockDim)))
           (seq 0 blockDim))
    (seq 0 gridDim).

(** [add_kernel[gridDim, blockDim](x, y, out)] under the schedule
    [sched]. *)
Definition add_kernel_explicit (gridDim blockDim : nat) (sched : list nat)
    x y out m : option (gmap loc (list A) * list add_thread) :=
  match m !! x with
  | Some xs =>
      pool_run (add_step x y out) sched
        (m, add_launch_explicit gridDim blockDim (length xs))
  | None => None
  end.

Definition add_kernel (gridDim blockDim : nat) (sched : list nat)
    x y out m : option (gmap loc (list A) * list add_thread) :=
  match m !! x with
  | Some xs =>
      pool_run (add_step x y out) sched
        (m, add_launch gridDim blockDim (length xs))
  | None => None
  end.

Lemma add_launch_seq gridDim blockDim n :
  add_launch gridDim blockDim n
  = (λ k, AddLoop (py_range k n (gridDim * blockDim)))
      <$> seq 0 (gridDim * blockDim).
Proof.
  unfold add_launch, cuda_grid, cuda_gridsize.
  apply (flat_map_grid (λ k, AddLoop (py_range k n (gridDim * blockDim)))).
Qed.

Lemma add_launch_explicit_eq gridDim blockDim n :
  add_launch_explicit gridDim blockDim n = add_launch gridDim blockDim n.
Proof.
  unfold add_launch_explicit, add_launch, cuda_grid, cuda_gridsize. cbn zeta.
  by rewrite (Nat.mul_comm blockDim gridDim).
Qed.

Lemma add_step_left x y out m t m' t' :
  add_step x y out m t = Some (m', t') → add_left t' ≤ add_left t - 1.
Proof.
  destruct t as [[|i todo]|i xi todo|i xi yi todo]; cbn;
    repeat case_match; intros; simplify_eq/=; lia.
Qed.

Lemma add_left_0 t : add_left t = 0 → t = AddLoop [].
Proof. destruct t as [[|??]|???|????]; cbn; [done | lia..]. Qed.

Section add_inv.
Context (x y out : loc) (m0 : gmap loc (list A)) (xs ys os : list A) (W : nat).
Hypothesis Hx : m0 !! x = Some xs.
Hypothesis Hy : m0 !! y = Some ys.
Hypothesis Hout : m0 !! out = Some os.
Hypothesis Hys : length xs ≤ length ys.
Hypothesis Hos : length xs ≤ length os.

(** What [out[i]] is to become. *)
Definition add_val (i : nat) : option A :=
  match xs !! i, ys !! i with
  | Some xi, Some yi => Some (add xi yi)
  | _, _ => None
  end.

Definition add_tinv (k : nat) (t : add_thread) (P : list nat) : Prop :=
  match t with
  | AddLoop todo => py_range k (length xs) W = P ++ todo
  | AddX i xi todo =>
      py_range k (length xs) W = P ++ i :: todo ∧ xs !! i = Some xi
  | AddXY i xi yi todo =>
      py_range k (length xs) W = P ++ i :: todo
      ∧ xs !! i = Some xi ∧ ys !! i = Some yi
  end.

(** The entries of [out] that have been written hold the sums of the
    initial entries of [x] and [y]; every other entry of every array is as
    it was at the launch. *)
Definition add_inv (s : gmap loc (list A) * list add_thread) : Prop :=
  ∃ Ps o,
    length s.2 = W ∧ walks W (length xs) Ps
    ∧ (∀ k t P, s.2 !! k = Some t → Ps !! k = Some P → add_tinv k t P)
    ∧ (∀ l, l ≠ out → s.1 !! l = m0 !! l)
    ∧ s.1 !! out = Some o ∧ length o = length os
    ∧ ∀ i, o !! i = if decide (i ∈ concat Ps) then add_val i else os !! i.

Lemma add_inv_init :
  add_inv (m0, (λ k, AddLoop (py_range k (length xs) W)) <$> seq 0 W).
Proof.
  exists (replicate W []), os. cbn. split_and!; [| apply walks_init | | done..|].
  - by rewrite length_fmap, length_seq.
  - intros k t P Ht HP. apply lookup_replicate in HP as [-> Hk].
    rewrite list_lookup_fmap, lookup_seq_lt in Ht by done. by simplify_eq/=.
  - intros i. rewrite concat_replicate_nil. by rewrite decide_False by apply not_elem_of_nil.
Qed.

Lemma add_inv_load m Ps o a i :
  (∀ l, l ≠ out → m !! l = m0 !! l) →
  m !! out = Some o →
  (∀ i, o !! i = if decide (i ∈ concat Ps) then add_val i else os !! i) →
  i ∉ concat Ps → load m a i = load m0 a i.
Proof.
  intros Hfr Ho Hval Hi. unfold load. destruct (decide (a = out)) as [->|Hne].
  - rewrite Ho, Hout, Hval. by rewrite decide_False.
  - by rewrite Hfr.
Qed.

Lemma add_inv_step s k :
  add_inv s → ∃ s', pool_step (add_step x y out) s k = Some s' ∧ add_inv s'.
Proof.
  destruct s as [m ts].
  intros (Ps & o & Hlen & HPs & Hth & Hfr & Ho & Holen & Hval). cbn in *.
  unfold pool_step. cbn.
  destruct (ts !! k) as [t|] eqn:Hk; [|eexists; split; [done|]; by exists Ps, o].
  assert (k < W) as HkW by (apply lookup_lt_Some in Hk; lia).
  destruct (lookup_lt_is_Some_2 Ps k) as [P HP]; [destruct HPs; lia|].
  pose proof (Hth k t P Hk HP) as Ht.
  destruct t as [[|i todo]|i xi todo|i xi yi todo]; cbn in Ht |- *.
  - rewrite list_insert_id by done. eexists; split; [done|]. by exists Ps, o.
  - destruct (walks_next_fresh W _ Ps k P i todo HPs HP Ht) as (Hfresh & Hi & _).
    rewrite (add_inv_load m Ps o x i Hfr Ho Hval Hfresh). unfold load.
    rewrite Hx. destruct (lookup_lt_is_Some_2 xs i Hi) as [xi Hxi].
    rewrite Hxi. eexists; split; [done|]. exists Ps, o. cbn.
    split_and!; [by rewrite length_insert | done | | done..].
    rewrite <- (list_insert_id Ps k P HP).
    by apply (lookup_insert_both add_tinv).
  - destruct Ht as [Ht Hxi].
    destruct (walks_next_fresh W _ Ps k P i todo HPs HP Ht) as (Hfresh & Hi & _).
    rewrite (add_inv_load m Ps o y i Hfr Ho Hval Hfresh). unfold load.
    rewrite Hy. destruct (lookup_lt_is_Some_2 ys i) as [yi Hyi]; [lia|].
    rewrite Hyi. eexists; split; [done|]. exists Ps, o. cbn.
    split_and!; [by rewrite length_insert | done | | done..].
    rewrite <- (list_insert_id Ps k P HP).
    by apply (lookup_insert_both add_tinv).
  - destruct Ht as (Ht & Hxi & Hyi).
    destruct (walks_next_fresh W _ Ps k P i todo HPs HP Ht) as (Hfresh & Hi & _).
    destruct (walks_extend W _ Ps k P i todo HPs HP Ht) as [HPs' Hmem].
    unfold store. rewrite Ho, bool_decide_eq_true_2 by lia.
    eexists; split; [done|].
    exists (<[k := P ++ [i]]> Ps), (<[i := add xi yi]> o). cbn.
    split_and!; [by rewrite length_insert | done | | | | |].
    + apply (lookup_insert_both add_tinv); [done|]. cbn.
      by rewrite <- (assoc (++)).
    + intros l Hl. rewrite lookup_insert_ne by done. by apply Hfr.
    + by rewrite lookup_insert_eq.
    + by rewrite length_insert.
    + intros j. destruct (decide (j = i)) as [->|Hji].
      * rewrite list_lookup_insert_eq by lia.
        rewrite decide_True by (apply Hmem; by right).
        unfold add_val. by rewrite Hxi, Hyi.
      * rewrite list_lookup_insert_ne by done. rewrite Hval.
        destruct (decide (j ∈ concat Ps)) as [Hin|Hnin].
        -- by rewrite decide_True by (apply Hmem; by left).
        -- rewrite decide_False; [done|]. rewrite Hmem. tauto.
Qed.

Lemma add_inv_done s i :
  0 < W → add_inv s → pool_done add_left s →
  ∃ o, s.1 !! out = Some o ∧ length o = length os
       ∧ o !! i = if decide (i < length xs) then add_val i else os !! i.
Proof.
  destruct s as [m ts].
  intros HW (Ps & o & Hlen & HPs & Hth & Hfr & Ho & Holen & Hval) Hdone.
  cbn in *. exists o. split_and!; [done..|]. rewrite Hval.
  assert (i ∈ concat Ps ↔ i < length xs) as Hiff.
  { apply (walks_complete W); [done..|]. intros k P HP.
    destruct (lookup_lt_is_Some_2 ts k) as [t Ht].
    { apply lookup_lt_Some in HP. destruct HPs. lia. }
    pose proof (Forall_lookup_1 _ _ _ _ Hdone Ht) as Hleft. cbn in Hleft.
    apply add_left_0 in Hleft as ->. specialize (Hth k _ P Ht HP). cbn in Hth.
    by rewrite app_nil_r in Hth. }
  destruct (decide (i ∈ concat Ps)), (decide (i < length xs)); tauto.
Qed.

(** At every moment the entries of [out] from [x.shape[0]] on, and every
    entry not yet written, are those of the launch; the written ones are
    final. *)
Lemma add_inv_progress s i :
  add_inv s →
  (∀ l, l ≠ out → s.1 !! l = m0 !! l)
  ∧ ∃ o, s.1 !! out = Some o ∧ length o = length os
         ∧ (o !! i = os !! i ∨ (i < length xs ∧ o !! i = add_val i)).
Proof.
  destruct s as [m ts].
  intros (Ps & o & Hlen & HPs & Hth & Hfr & Ho & Holen & Hval). cbn in *.
  split; [done|]. exists o. split_and!; [done..|]. rewrite Hval.
  destruct (decide (i ∈ concat Ps)) as [Hin|]; [|by left]. right.
  by destruct (elem_of_concat_walks W _ Ps i HPs Hin) as (_ & _ & _ & ?).
Qed.

End add_inv.
End add_kernel.

Section add_kernel_facts.
Context {A : Type} (add : A → A → A).
Context (gridDim blockDim : nat) (x y out : loc) (m : gmap loc (list A)).
Context (xs ys os : list A).
Hypothesis Hx : m !! x = Some xs.
Hypothesis Hy : m !! y = Some ys.
Hypothesis Hout : m !! out = Some os.

Lemma add_kernel_inv sched :
  length xs ≤ length ys → length xs ≤ length os →
  ∃ s, add_kernel add gridDim blockDim sched x y out m = Some s
       ∧ add_inv add out m xs ys os (gridDim * blockDim) s.
Proof.
  intros Hys Hos. unfold add_kernel. rewrite Hx.
  apply pool_run_inv.
  - intros s k. by apply (add_inv_step add x y out m xs ys os).
  - rewrite add_launch_seq. by apply add_inv_init.
Qed.

(** A thread too many: the entry at index [j] of [y] or [out] is missing,
    and thread [j mod W] has [j] on its walk. *)
Definition add_stuck (j : nat) (t : add_thread (A := A)) : Prop :=
  match t with
  | AddLoop todo => j ∈ todo
  | AddX i _ todo => i = j ∨ j ∈ todo
  | AddXY i _ _ todo => (i = j ∧ length os ≤ j) ∨ j ∈ todo
  end.

Definition add_short (j : nat) (s : gmap loc (list A) * list add_thread)
    : Prop :=
  (∃ l, s.1 !! y = Some l ∧ length l = length ys)
  ∧ (∃ o, s.1 !! out = Some o ∧ length o = length os)
  ∧ ∃ t, s.2 !! (j mod (gridDim * blockDim)) = Some t ∧ add_stuck j t.

Lemma add_store_length a i v (m1 m2 : gmap loc (list A)) b l :
  store m1 a i v = Some m2 → m1 !! b = Some l →
  ∃ l', m2 !! b = Some l' ∧ length l' = length l.
Proof.
  unfold store. intros Hst Hb. destruct (m1 !! a) as [la|] eqn:Ha; [|done].
  case_bool_decide; [|done]. simplify_eq.
  destruct (decide (a = b)) as [->|Hne].
  - rewrite lookup_insert_eq. eexists. split; [done|].
    rewrite length_insert. congruence.
  - rewrite lookup_insert_ne by done. eauto.
Qed.

Lemma add_short_step j s k s' :
  length ys ≤ j ∨ length os ≤ j →
  add_short j s → pool_step (add_step add x y out) s k = Some s' →
  add_short j s'.
Proof.
  destruct s as [m1 ts].
  intros Hj ((l & Hl & Hll) & (o & Ho & Hol) & t & Ht & Hst) Hstep.
  unfold pool_step in Hstep. cbn in *.
  destruct (ts !! k) as [tk|] eqn:Hk; [|simplify_eq; repeat split; eauto].
  destruct (add_step add x y out m1 tk) as [[m2 tk']|] eqn:Hs; [|done].
  simplify_eq. cbn.
  assert ((∃ l', m2 !! y = Some l' ∧ length l' = length ys)
          ∧ ∃ o', m2 !! out = Some o' ∧ length o' = length os) as [Hy' Ho'].
  { destruct tk as [[|i todo]|i xi todo|i xi yi todo]; cbn in Hs;
      repeat case_match; simplify_eq; try (by split; eauto).
    match goal with Hst' : store _ _ _ _ = Some _ |- _ =>
      destruct (add_store_length _ _ _ _ _ y l Hst' Hl) as (? & ? & ?);
      destruct (add_store_length _ _ _ _ _ out o Hst' Ho) as (? & ? & ?)
    end.
    split; eexists; (split; [done | congruence]). }
  split_and!; [done..|].
  destruct (decide (k = j mod (gridDim * blockDim))) as [->|Hne].
  2:{ exists t. cbn. by rewrite list_lookup_insert_ne. }
  cbn. rewrite list_lookup_insert_eq by (by eapply lookup_lt_Some).
  eexists. split; [done|]. simplify_eq.
  destruct t as [[|i todo]|i xi todo|i xi yi todo]; cbn in Hs, Hst.
  - by apply elem_of_nil in Hst.
  - destruct (load m1 x i); simplify_eq/=.
    apply elem_of_cons in Hst as [->|?]; eauto.
  - destruct (load m1 y i) as [yi|] eqn:Hld; simplify_eq/=.
    destruct Hst as [->|?]; [|by right]. left. split; [done|].
    destruct Hj as [Hj|Hj]; [|done]. unfold load in Hld. rewrite Hl in Hld.
    apply lookup_lt_Some in Hld. lia.
  - destruct (store m1 out i (add xi yi)) as [m3|] eqn:Hst'; simplify_eq/=.
    destruct Hst as [[-> Hlen]|?]; [|done].
    unfold store in Hst'. rewrite Ho in Hst'.
    rewrite bool_decide_eq_false_2 in Hst' by lia. done.
Qed.

Lemma add_short_run j sched s s' :
  length ys ≤ j ∨ length os ≤ j →
  add_short j s → pool_run (add_step add x y out) sched s = Some s' →
  add_short j s'.
Proof.
  intros Hj. revert s. induction sched as [|k sched IH]; intros s Hs Hrun.
  - by simplify_eq/=.
  - cbn in Hrun.
    destruct (pool_step (add_step add x y out) s k) as [s1|] eqn:H1; [|done].
    eapply IH; [|done]. by eapply add_short_step.
Qed.

End add_kernel_facts.

(** X1: when [y] and [out] are at least as long as [x], a launch of
    [add_kernel] with at least one thread that has run to its end, under
    whatever schedule, has put [x[i] + y[i]], of the values [x] and [y]
    had at the launch, in [out[i]] for every index of [x], and has left
    the rest of [out] alone.  This holds also when [out] is [x] or [y]
    itself. *)
Theorem X1_add_kernel_sums {A} (add : A → A → A) gridDim blockDim sched
    x y out (m : gmap loc (list A)) xs ys os s :
  m !! x = Some xs → m !! y = Some ys → m !! out = Some os →
  length xs ≤ length ys → length xs ≤ length os →
  0 < gridDim → 0 < blockDim →
  add_kernel add gridDim blockDim sched x y out m = Some s →
  pool_done add_left s →
  ∃ o, s.1 !! out = Some o ∧ length o = length os
       ∧ (∀ i xi yi,
            xs !! i = Some xi → ys !! i = Some yi →
            o !! i = Some (add xi yi))
       ∧ (∀ i, length xs ≤ i → o !! i = os !! i).
Proof.
  intros Hx Hy Hout Hys Hos Hg Hb Hrun Hdone.
  destruct (add_kernel_inv add gridDim blockDim x y out m xs ys os Hx Hy Hout
              sched Hys Hos) as (s0 & Hrun0 & Hinv).
  assert (s0 = s) as -> by congruence.
  assert (0 < gridDim * blockDim) as HW by nia.
  destruct (add_inv_done add out m xs ys os _ Hys Hos s 0 HW Hinv Hdone)
    as (o & Ho & Hlen & _).
  exists o. split_and!; [done..| |].
  - intros i xi yi Hxi Hyi.
    destruct (add_inv_done add out m xs ys os _ Hys Hos s i HW Hinv Hdone)
      as (o' & Ho' & _ & Hi).
    assert (o' = o) as -> by congruence.
    rewrite Hi, decide_True by (by eapply lookup_lt_Some).
    unfold add_val. by rewrite Hxi, Hyi.
  - intros i Hi.
    destruct (add_inv_done add out m xs ys os _ Hys Hos s i HW Hinv Hdone)
      as (o' & Ho' & _ & Hi').
    assert (o' = o) as -> by congruence.
    by rewrite Hi', decide_False by lia.
Qed.

(** X2: when [y] and [out] are at least as long as [x], no schedule makes
    a thread of [add_kernel] reach outside an array, and some schedule
    brings every thread to its end. *)
Theorem X2_add_kernel_stays_within_bounds {A} (add : A → A → A)
    gridDim blockDim x y out (m : gmap loc (list A)) xs ys os :
  m !! x = Some xs → m !! y = Some ys → m !! out = Some os →
  length xs ≤ length ys → length xs ≤ length os →
  (∀ sched, is_Some (add_kernel add gridDim blockDim sched x y out m))
  ∧ ∃ sched s,
      add_kernel add gridDim blockDim sched x y out m = Some s
      ∧ pool_done add_left s.
Proof.
  intros Hx Hy Hout Hys Hos. split.
  - intros sched.
    destruct (add_kernel_inv add gridDim blockDim x y out m xs ys os Hx Hy Hout
                sched Hys Hos) as (s & Hrun & _).
    by exists s.
  - unfold add_kernel. rewrite Hx, add_launch_seq.
    set (W := gridDim * blockDim).
    set (s0 := (m, (λ k, AddLoop (py_range k (length xs) W)) <$> seq 0 W)).
    destruct (pool_run_in_turn (add_step add x y out) add_left
                (add_step_left add x y out)
                (add_inv add out m xs ys os W) (3 * length xs) s0)
      as (s & Hrun & _ & Hdone).
    + intros s k. by apply (add_inv_step add x y out m xs ys os).
    + by apply add_inv_init.
    + apply Forall_fmap, Forall_forall. intros k Hk. cbn.
      apply elem_of_seq in Hk. unfold py_range.
      rewrite length_fmap, length_seq.
      pose proof (range_length_le k (length xs) W). lia.
    + eauto.
Qed.

(** X3: at every moment of a launch of [add_kernel] on long enough
    arrays, every array other than [out] is what it was at the launch,
    [out] has kept its length, and each entry of [out] is either what it
    was at the launch or, at an index of [x], the sum that belongs
    there. *)
Theorem X3_add_kernel_writes_only_sums {A} (add : A → A → A)
    gridDim blockDim sched x y out (m : gmap loc (list A)) xs ys os s :
  m !! x = Some xs → m !! y = Some ys → m !! out = Some os →
  length xs ≤ length ys → length xs ≤ length os →
  add_kernel add gridDim blockDim sched x y out m = Some s →
  (∀ l, l ≠ out → s.1 !! l = m !! l)
  ∧ ∃ o, s.1 !! out = Some o ∧ length o = length os
         ∧ ∀ i, o !! i = os !! i
                ∨ ∃ xi yi, xs !! i = Some xi ∧ ys !! i = Some yi
                           ∧ o !! i = Some (add xi yi).
Proof.
  intros Hx Hy Hout Hys Hos Hrun.
  destruct (add_kernel_inv add gridDim blockDim x y out m xs ys os Hx Hy Hout
              sched Hys Hos) as (s0 & Hrun0 & Hinv).
  assert (s0 = s) as -> by congruence.
  destruct (add_inv_progress add out m xs ys os _ s 0 Hinv)
    as (Hfr & o & Ho & Hlen & _).
  split; [done|]. exists o. split_and!; [done..|]. intros i.
  destruct (add_inv_progress add out m xs ys os _ s i Hinv)
    as (_ & o' & Ho' & _ & Hi).
  assert (o' = o) as -> by congruence.
  destruct Hi as [Hi|[Hlt Hi]]; [by left | right].
  destruct (lookup_lt_is_Some_2 xs i Hlt) as [xi Hxi].
  destruct (lookup_lt_is_Some_2 ys i) as [yi Hyi]; [lia|].
  exists xi, yi. unfold add_val in Hi. by rewrite Hxi, Hyi in Hi.
Qed.

(** X4: [add_kernel] does not check that its arrays match.  When [y] or
    [out] is shorter than [x], no launch with at least one thread reaches
    its end within the arrays: under every schedule some thread is still
    on its way, or has reached outside an array. *)
Theorem X4_add_kernel_short_array {A} (add : A → A → A)
    gridDim blockDim sched x y out (m : gmap loc (list A)) xs ys os s :
  m !! x = Some xs → m !! y = Some ys → m !! out = Some os →
  0 < gridDim → 0 < blockDim →
  length ys < length xs ∨ length os < length xs →
  add_kernel add gridDim blockDim sched x y out m = Some s →
  ¬ pool_done add_left s.
Proof.
  intros Hx Hy Hout Hg Hb Hshort Hrun Hdone.
  assert (0 < gridDim * blockDim) as HW by nia.
  assert (∃ j, j < length xs ∧ (length ys ≤ j ∨ length os ≤ j)) as (j & Hj & Hjs).
  { destruct Hshort; [exists (length ys) | exists (length os)]; split; lia || auto. }
  unfold add_kernel in Hrun. rewrite Hx, add_launch_seq in Hrun.
  eapply (add_short_run add gridDim blockDim x y out ys os j) in Hrun; [|done|].
  - destruct Hrun as (_ & _ & t & Ht & Hst).
    pose proof (Forall_lookup_1 _ _ _ _ Hdone Ht) as Hleft. cbn in Hleft.
    apply add_left_0 in Hleft as ->. cbn in Hst. by apply elem_of_nil in Hst.
  - split_and!; [by exists ys | by exists os |]. cbn.
    assert (j mod (gridDim * blockDim) < gridDim * blockDim)
      by (apply Nat.mod_upper_bound; lia).
    rewrite list_lookup_fmap, lookup_seq_lt by done. cbn.
    eexists. split; [done|]. cbn. by apply elem_of_py_range_mod.
Qed.


(** An in-place launch, [add_kernel[1, 2](x, y, x)], and its end. *)
Definition add_example : gmap loc (list Z) :=
  {[ 0 := [1; 2; 3]%Z; 1 := [10; 20; 30; 40]%Z ]}.
Definition add_example_end : gmap loc (list Z) * list (add_thread (A := Z)) :=
  ({[ 0 := [11; 22; 33]%Z; 1 := [10; 20; 30; 40]%Z ]},
   [AddLoop []; AddLoop []]).

Lemma X1_witness :
  ∃ o, add_example_end.1 !! 0 = Some o ∧ length o = length [1; 2; 3]%Z
       ∧ (∀ i xi yi,
            [1; 2; 3]%Z !! i = Some xi → [10; 20; 30; 40]%Z !! i = Some yi →
            o !! i = Some (xi + yi)%Z)
       ∧ (∀ i, length [1; 2; 3]%Z ≤ i → o !! i = [1; 2; 3]%Z !! i).
Proof.
  apply (X1_add_kernel_sums Z.add 1 2 [0; 1; 0; 1; 1; 0; 0; 0; 0] 0 1 0
           add_example [1; 2; 3]%Z [10; 20; 30; 40]%Z [1; 2; 3]%Z
           add_example_end);
    [reflexivity | reflexivity | reflexivity | cbn; lia | cbn; lia | lia | lia
    | vm_compute; reflexivity | repeat constructor].
Defined.

Lemma X2_witness :
  (∀ sched, is_Some (add_kernel Z.add 1 2 sched 0 1 0 add_example))
  ∧ ∃ sched s,
      add_kernel Z.add 1 2 sched 0 1 0 add_example = Some s
      ∧ pool_done add_left s.
Proof.
  apply (X2_add_kernel_stays_within_bounds Z.add 1 2 0 1 0 add_example
           [1; 2; 3]%Z [10; 20; 30; 40]%Z [1; 2; 3]%Z);
    [reflexivity | reflexivity | reflexivity | cbn; lia | cbn; lia].
Defined.

(** A launch into a third array, stopped after three steps. *)
Definition add_example3 : gmap loc (list Z) :=
  {[ 0 := [1; 2; 3]%Z; 1 := [10; 20; 30; 40]%Z; 2 := [7; 7; 7; 7]%Z ]}.

Lemma X3_witness :
  ∃ s,
    add_kernel Z.add 1 2 [0; 1; 0] 0 1 2 add_example3 = Some s
    ∧ (∀ l, l ≠ 2 → s.1 !! l = add_example3 !! l)
    ∧ ∃ o, s.1 !! 2 = Some o ∧ length o = length [7; 7; 7; 7]%Z
           ∧ ∀ i, o !! i = [7; 7; 7; 7]%Z !! i
                  ∨ ∃ xi yi, [1; 2; 3]%Z !! i = Some xi
                             ∧ [10; 20; 30; 40]%Z !! i = Some yi
                             ∧ o !! i = Some (xi + yi)%Z.
Proof.
  exists (add_example3, [AddXY 0 1%Z 10%Z [2]; AddX 1 2%Z []]).
  split; [vm_compute; reflexivity|].
  apply (X3_add_kernel_writes_only_sums Z.add 1 2 [0; 1; 0] 0 1 2 add_example3
           [1; 2; 3]%Z [10; 20; 30; 40]%Z [7; 7; 7; 7]%Z);
    [reflexivity | reflexivity | reflexivity | cbn; lia | cbn; lia
    | vm_compute; reflexivity].
Defined.

(** A launch with [y] one entry short. *)
Definition add_example_short : gmap loc (list Z) :=
  {[ 0 := [1; 2; 3]%Z; 1 := [10; 20]%Z; 2 := [7; 7; 7; 7]%Z ]}.

Lemma X4_witness :
  ¬ pool_done add_left
      (add_example_short, [AddX 0 1%Z [2]; AddLoop (A := Z) [1]]).
Proof.
  apply (X4_add_kernel_short_array Z.add 1 2 [0] 0 1 2 add_example_short
           [1; 2; 3]%Z [10; 20]%Z [7; 7; 7; 7]%Z);
    [reflexivity | reflexivity | reflexivity | lia | lia | left; cbn; lia
    | vm_compute; reflexivity].
Defined.

(** ** [first_kernel2] *)

(** [l[i] = v] on the contents of one array *)
Definition list_store {A} (l : list A) (i : nat) (v : A) : option (list A) :=
  if bool_decide (i < length l) then Some (<[i := v]> l) else None.

Section first_kernel2.
Context {A : Type}.
(** The conversion of the integer [start] to the element type of [out]. *)
Context (of_start : nat → A).
(** [x.shape[0]], of the global array [x]. *)
Context (n : nat).

(** A thread keeps its [start] and what is left of its walk. *)
Inductive fk_thread : Type :=
| FkLoop (start : nat) (todo : list nat).

Definition fk_step (out : list A) (t : fk_thread)
    : option (list A * fk_thread) :=
  match t with
  | FkLoop start [] => Some (out, FkLoop start [])
  | FkLoop start (i :: todo) =>
      match list_store out i (of_start start) with
      | Some out' => Some (out', FkLoop start todo)
      | None => None
      end
  end.

Definition fk_left (t : fk_thread) : nat :=
  match t with
  | FkLoop _ todo => length todo
  end.

Definition fk_launch (gridDim blockDim : nat) : list fk_thread :=
  flat_map
    (λ blockIdx,
       map (λ threadIdx,
              let start := cuda_grid blockIdx blockDim threadIdx in
              let stride := cuda_gridsize gridDim blockDim in
              FkLoop start (py_range start n stride))
           (seq 0 blockDim))
    (seq 0 gridDim).

(** [first_kernel2[gridDim, blockDim](out)] under the schedule [sched]. *)
Definition first_kernel2 (gridDim blockDim : nat) (sched : list nat)
    (out : list A) : option (list A * list fk_thread) :=
  pool_run fk_step sched (out, fk_launch gridDim blockDim).

Lemma fk_launch_seq gridDim blockDim :
  fk_launch gridDim blockDim
  = (λ k, FkLoop k (py_range k n (gridDim * blockDim)))
      <$> seq 0 (gridDim * blockDim).
Proof.
  unfold fk_launch, cuda_grid, cuda_gridsize. cbn zeta.
  apply (flat_map_grid (λ k, FkLoop k (py_range k n (gridDim * blockDim)))).
Qed.

Lemma fk_step_left out t out' t' :
  fk_step out t = Some (out', t') → fk_left t' ≤ fk_left t - 1.
Proof.
  destruct t as [start [|i todo]]; cbn; repeat case_match; intros;
    simplify_eq/=; lia.
Qed.

Section fk_inv.
Context (out0 : list A) (W : nat).
Hypothesis Hlen0 : n ≤ length out0.

Definition fk_tinv (k : nat) (t : fk_thread) (P : list nat) : Prop :=
  match t with
  | FkLoop start todo => start = k ∧ py_range k n W = P ++ todo
  end.

Definition fk_inv (s : list A * list fk_thread) : Prop :=
  ∃ Ps,
    length s.2 = W ∧ walks W n Ps
    ∧ (∀ k t P, s.2 !! k = Some t → Ps !! k = Some P → fk_tinv k t P)
    ∧ length s.1 = length out0
    ∧ ∀ i, s.1 !! i = if decide (i ∈ concat Ps)
                      then Some (of_start (i mod W)) else out0 !! i.

Lemma fk_inv_init :
  fk_inv (out0, (λ k, FkLoop k (py_range k n W)) <$> seq 0 W).
Proof.
  exists (replicate W []). cbn. split_and!; [| apply walks_init | | done |].
  - by rewrite length_fmap, length_seq.
  - intros k t P Ht HP. apply lookup_replicate in HP as [-> Hk].
    rewrite list_lookup_fmap, lookup_seq_lt in Ht by done. by simplify_eq/=.
  - intros i. rewrite concat_replicate_nil.
    by rewrite decide_False by apply not_elem_of_nil.
Qed.

Lemma fk_inv_step s k :
  fk_inv s → ∃ s', pool_step fk_step s k = Some s' ∧ fk_inv s'.
Proof.
  destruct s as [o ts]. intros (Ps & Hlen & HPs & Hth & Holen & Hval).
  cbn in *. unfold pool_step. cbn.
  destruct (ts !! k) as [t|] eqn:Hk; [|eexists; split; [done|]; by exists Ps].
  destruct (lookup_lt_is_Some_2 Ps k) as [P HP].
  { apply lookup_lt_Some in Hk. destruct HPs. lia. }
  pose proof (Hth k t P Hk HP) as Ht.
  destruct t as [start [|i todo]]; cbn in Ht |- *; destruct Ht as [-> Ht].
  - rewrite list_insert_id by done. eexists; split; [done|]. by exists Ps.
  - destruct (walks_next_fresh W n Ps k P i todo HPs HP Ht)
      as (Hfresh & Hi & Hmod).
    destruct (walks_extend W n Ps k P i todo HPs HP Ht) as [HPs' Hmem].
    unfold list_store. rewrite bool_decide_eq_true_2 by lia.
    eexists; split; [done|]. exists (<[k := P ++ [i]]> Ps). cbn.
    split_and!; [by rewrite length_insert | done | | by rewrite length_insert |].
    + apply (lookup_insert_both fk_tinv); [done|]. cbn.
      by rewrite <- (assoc (++)).
    + intros j. destruct (decide (j = i)) as [->|Hji].
      * rewrite list_lookup_insert_eq by lia.
        rewrite decide_True by (apply Hmem; by right). by rewrite Hmod.
      * rewrite list_lookup_insert_ne by done. rewrite Hval.
        destruct (decide (j ∈ concat Ps)) as [Hin|Hnin].
        -- by rewrite decide_True by (apply Hmem; by left).
        -- rewrite decide_False; [done|]. rewrite Hmem. tauto.
Qed.

Lemma fk_inv_done s i :
  0 < W → fk_inv s → pool_done fk_left s →
  s.1 !! i = if decide (i < n) then Some (of_start (i mod W)) else out0 !! i.
Proof.
  destruct s as [o ts]. intros HW (Ps & Hlen & HPs & Hth & Holen & Hval) Hdone.
  cbn in *. rewrite Hval.
  assert (i ∈ concat Ps ↔ i < n) as Hiff.
  { apply (walks_complete W); [done..|]. intros k P HP.
    destruct (lookup_lt_is_Some_2 ts k) as [t Ht].
    { apply lookup_lt_Some in HP. destruct HPs. lia. }
    pose proof (Forall_lookup_1 _ _ _ _ Hdone Ht) as Hleft. cbn in Hleft.
    specialize (Hth k _ P Ht HP). destruct t as [start todo]. cbn in *.
    destruct todo; [|done]. destruct Hth as [_ Hth].
    by rewrite app_nil_r in Hth. }
  destruct (decide (i ∈ concat Ps)), (decide (i < n)); tauto.
Qed.

End fk_inv.
End first_kernel2.

(** X5: [first_kernel2] writes to each of the first [x.shape[0]] entries
    of [out] the offset of the thread that owns it.  When [out] has room
    for them and the launch has at least one thread, every schedule stays
    within the array and keeps its length; once all the threads are
    through, [out[i] = i mod (gridDim * blockDim)] for [i < x.shape[0]]
    and the rest of [out] is untouched; and some schedule brings all the
    threads through. *)
Theorem X5_first_kernel2_marks_owners {A} (of_start : nat → A) n
    gridDim blockDim (out : list A) :
  n ≤ length out → 0 < gridDim → 0 < blockDim →
  (∀ sched,
     ∃ s, first_kernel2 of_start n gridDim blockDim sched out = Some s
          ∧ length s.1 = length out
          ∧ (pool_done fk_left s →
             ∀ i, s.1 !! i
                  = if decide (i < n)
                    then Some (of_start (i mod (gridDim * blockDim)))
                    else out !! i))
  ∧ ∃ sched s,
      first_kernel2 of_start n gridDim blockDim sched out = Some s
      ∧ pool_done fk_left s.
Proof.
  intros Hn Hg Hb. unfold first_kernel2. rewrite fk_launch_seq.
  set (W := gridDim * blockDim).
  set (s0 := (out, (λ k, FkLoop k (py_range k n W)) <$> seq 0 W)).
  assert (∀ s k, fk_inv of_start n out W s →
                 ∃ s', pool_step (fk_step of_start) s k = Some s'
                       ∧ fk_inv of_start n out W s') as Hstep.
  { intros s k. by apply fk_inv_step. }
  split.
  - intros sched.
    destruct (pool_run_inv (fk_step of_start) (fk_inv of_start n out W)
                sched s0 Hstep (fk_inv_init of_start n out W))
      as (s & Hrun & Hinv).
    exists s. split_and!; [done | |].
    + by destruct Hinv as (? & _ & _ & _ & ? & _).
    + intros Hdone i.
      apply (fk_inv_done of_start n out _ Hn); [unfold W; nia | done..].
  - destruct (pool_run_in_turn (fk_step of_start) fk_left
                (fk_step_left of_start) (fk_inv of_start n out W) n s0 Hstep
                (fk_inv_init of_start n out W))
      as (s & Hrun & _ & Hdone); [|eauto].
    apply Forall_fmap, Forall_forall. intros k Hk. cbn.
    apply elem_of_seq in Hk. unfold py_range.
    rewrite length_fmap, length_seq.
    pose proof (range_length_le k n W). lia.
Qed.

Lemma X5_witness :
  5 ≤ length [9; 9; 9; 9; 9; 9]%Z ∧ 0 < 1 ∧ 0 < 2
  ∧ (∀ sched,
       ∃ s, first_kernel2 Z.of_nat 5 1 2 sched [9; 9; 9; 9; 9; 9]%Z = Some s
            ∧ length s.1 = length [9; 9; 9; 9; 9; 9]%Z
            ∧ (pool_done fk_left s →
               ∀ i, s.1 !! i
                    = if decide (i < 5) then Some (Z.of_nat (i mod (1 * 2)))
                      else [9; 9; 9; 9; 9; 9]%Z !! i))
  ∧ ∃ sched s,
      first_kernel2 Z.of_nat 5 1 2 sched [9; 9; 9; 9; 9; 9]%Z = Some s
      ∧ pool_done fk_left s.
Proof.
  split; [cbn; lia|]. split; [lia|]. split; [lia|].
  apply (X5_first_kernel2_marks_owners Z.of_nat 5 1 2 [9; 9; 9; 9; 9; 9]%Z);
    [cbn; lia | lia | lia].
Defined.

(** ** The two thread counters *)

Lemma length_filter_insert {T} (f : T → bool) (ts : list T) k t t' :
  ts !! k = Some t →
  length (filter (λ t, f t) (<[k := t']> ts)) + (if f t then 1 else 0)
  = length (filter (λ t, f t) ts) + (if f t' then 1 else 0).
Proof.
  revert k. induction ts as [|t0 ts IH]; intros [|k] Hk; simplify_eq/=.
  - rewrite !filter_cons.
    destruct (decide (f t)) as [H1|H1], (decide (f t')) as [H2|H2];
      destruct (f t), (f t'); cbn in *; try done; lia.
  - rewrite !filter_cons. specialize (IH k Hk).
    destruct (decide (f t0)); cbn [length]; lia.
Qed.

Section thread_counters.
Context {A : Type} (add : A → A → A) (one : A).
Implicit Types (c : list A).

(** What a counter holding [v] holds after [j] increments. *)
Definition bumped (j : nat) (v : A) : A := Nat.iter j (λ u, add u one) v.

(** [cuda.atomic.add(c, i, v)]: read, add and write in one step. *)
Definition atomic_add c (i : nat) (v : A) : option (list A) :=
  match c !! i with
  | Some old => Some (<[i := add old v]> c)
  | None => None
  end.

(** A thread of [thread_counter_race_condition] executes
    [global_counter[0] += 1] as a read followed by a write. *)
Inductive race_thread : Type :=
| RaceStart
| RaceLoaded (v : A)
| RaceDone.

Definition race_step c (t : race_thread) : option (list A * race_thread) :=
  match t with
  | RaceStart =>
      match c !! 0 with
      | Some v => Some (c, RaceLoaded v)
      | None => None
      end
  | RaceLoaded v =>
      match list_store c 0 (add v one) with
      | Some c' => Some (c', RaceDone)
      | None => None
      end
  | RaceDone => Some (c, RaceDone)
  end.

Definition race_left (t : race_thread) : nat :=
  match t with
  | RaceStart => 2
  | RaceLoaded _ => 1
  | RaceDone => 0
  end.

Definition race_done (t : race_thread) : bool :=
  match t with
  | RaceDone => true
  | _ => false
  end.

(** A thread of [thread_counter_safe]. *)
Inductive safe_thread : Type :=
| SafeStart
| SafeDone.

Definition safe_step c (t : safe_thread) : option (list A * safe_thread) :=
  match t with
  | SafeStart =>
      match atomic_add c 0 one with
      | Some c' => Some (c', SafeDone)
      | None => None
      end
  | SafeDone => Some (c, SafeDone)
  end.

Definition safe_left (t : safe_thread) : nat :=
  match t with
  | SafeStart => 1
  | SafeDone => 0
  end.

Definition safe_done (t : safe_thread) : bool :=
  match t with
  | SafeDone => true
  | SafeStart => false
  end.

(** [thread_counter_race_condition[gridDim, blockDim](global_counter)] and
    [thread_counter_safe[gridDim, blockDim](global_counter)] under the
    schedule [sched]. *)
Definition thread_counter_race_condition (gridDim blockDim : nat)
    (sched : list nat) (global_counter : list A)
    : option (list A * list race_thread) :=
  pool_run race_step sched
    (global_counter, replicate (cuda_gridsize gridDim blockDim) RaceStart).

Definition thread_counter_safe (gridDim blockDim : nat)
    (sched : list nat) (global_counter : list A)
    : option (list A * list safe_thread) :=
  pool_run safe_step sched
    (global_counter, replicate (cuda_gridsize gridDim blockDim) SafeStart).

Lemma race_step_left c t c' t' :
  race_step c t = Some (c', t') → race_left t' ≤ race_left t - 1.
Proof.
  destruct t; cbn; repeat case_match; intros; simplify_eq/=; lia.
Qed.

Lemma safe_step_left c t c' t' :
  safe_step c t = Some (c', t') → safe_left t' ≤ safe_left t - 1.
Proof.
  destruct t; cbn; repeat case_match; intros; simplify_eq/=; lia.
Qed.

Lemma bumped_S j v : bumped (S j) v = add (bumped j v) one.
Proof. done. Qed.

Section counter_inv.
Context (c0 : list A) (v0 : A).
Hypothesis Hc0 : c0 !! 0 = Some v0.

(** The counter counts the threads that have added to it. *)
Definition safe_inv (s : list A * list safe_thread) : Prop :=
  s.1 = <[0 := bumped (length (filter (λ t, safe_done t) s.2)) v0]> c0.

Lemma safe_inv_step s k :
  safe_inv s → ∃ s', pool_step safe_step s k = Some s' ∧ safe_inv s'.
Proof.
  destruct s as [c ts]. unfold safe_inv, pool_step. cbn. intros ->.
  destruct (ts !! k) as [t|] eqn:Hk; [|by eexists].
  pose proof (length_filter_insert safe_done ts k t) as Hcount.
  destruct t; cbn [safe_step].
  - unfold atomic_add.
    rewrite list_lookup_insert_eq by (by eapply lookup_lt_Some).
    eexists. split; [done|]. cbn [fst snd].
    specialize (Hcount SafeDone Hk). cbn [safe_done] in Hcount.
    replace (length (filter (λ t, safe_done t) (<[k := SafeDone]> ts)))
      with (S (length (filter (λ t, safe_done t) ts))) by lia.
    by rewrite list_insert_insert_eq.
  - eexists. split; [done|]. cbn [fst snd].
    by rewrite (list_insert_id ts k SafeDone Hk).
Qed.

(** The value in memory and the values the threads hold have been reached
    by at most as many increments as threads have written, and by at
    least one as soon as one has. *)
Definition race_inv (s : list A * list race_thread) : Prop :=
  let d := length (filter (λ t, race_done t) s.2) in
  (∃ j, s.1 = <[0 := bumped j v0]> c0 ∧ j ≤ d ∧ (0 < d → 0 < j))
  ∧ ∀ k v, s.2 !! k = Some (RaceLoaded v) → ∃ j, v = bumped j v0 ∧ j ≤ d.

Lemma race_inv_step s k :
  race_inv s → ∃ s', pool_step race_step s k = Some s' ∧ race_inv s'.
Proof.
  destruct s as [c ts]. unfold race_inv, pool_step. cbn.
  intros [(j & -> & Hj & Hj0) Hreg].
  destruct (ts !! k) as [t|] eqn:Hk; [|eexists; split; [done|]; cbn; eauto].
  pose proof (length_filter_insert race_done ts k t) as Hcount.
  assert (0 < length c0) as Hlen by (by eapply lookup_lt_Some).
  destruct t as [|v|]; cbn.
  - rewrite list_lookup_insert_eq by done.
    eexists. split; [done|]. cbn.
    specialize (Hcount (RaceLoaded (bumped j v0)) Hk).
    cbn [race_done] in Hcount.
    replace (length (filter _ (<[k := _]> ts)))
      with (length (filter (λ t, race_done t) ts)) by lia.
    split; [eauto|]. intros k' v Hk'.
    apply list_lookup_insert_Some in Hk' as [(_ & [= <-] & _)|[_ Hk']]; eauto.
  - destruct (Hreg k v Hk) as (j' & -> & Hj').
    unfold list_store. rewrite length_insert, bool_decide_eq_true_2 by done.
    eexists. split; [done|]. cbn.
    specialize (Hcount RaceDone Hk). cbn [race_done] in Hcount.
    replace (length (filter _ (<[k := _]> ts)))
      with (S (length (filter (λ t, race_done t) ts))) by lia.
    split.
    + exists (S j'). rewrite list_insert_insert_eq. split_and!; [done | lia..].
    + intros k' v Hk'.
      apply list_lookup_insert_Some in Hk' as [(_ & [=] & _)|[_ Hk']].
      destruct (Hreg k' v Hk') as (j'' & -> & ?). exists j''. split; [done | lia].
  - eexists. split; [done|]. cbn [fst snd].
    rewrite (list_insert_id ts k RaceDone Hk). eauto.
Qed.

End counter_inv.

(** All the threads read, then all of them write. *)
Lemma race_all_read v c a b :
  c !! 0 = Some v →
  pool_run race_step (seq a b)
    (c, replicate a (RaceLoaded v) ++ replicate b RaceStart)
  = Some (c, replicate (a + b) (RaceLoaded v)).
Proof.
  intros Hc. revert a. induction b as [|b IH]; intros a.
  - cbn. by rewrite app_nil_r, Nat.add_0_r.
  - cbn [seq pool_run]. unfold pool_step. cbn [fst snd].
    rewrite lookup_app_r, length_replicate, Nat.sub_diag
      by (by rewrite length_replicate).
    cbn. rewrite Hc.
    rewrite insert_app_r_alt, length_replicate, Nat.sub_diag
      by (by rewrite length_replicate).
    cbn. rewrite cons_middle, (assoc (++)), <- replicate_S_end, IH.
    do 3 f_equal. lia.
Qed.

Lemma race_all_write v c a b :
  0 < length c →
  pool_run race_step (seq a b)
    (c, replicate a RaceDone ++ replicate b (RaceLoaded v))
  = Some (match b with 0 => c | S _ => <[0 := add v one]> c end,
          replicate (a + b) RaceDone).
Proof.
  revert a c. induction b as [|b IH]; intros a c Hlen.
  - cbn. by rewrite app_nil_r, Nat.add_0_r.
  - cbn [seq pool_run]. unfold pool_step. cbn [fst snd].
    rewrite lookup_app_r, length_replicate, Nat.sub_diag
      by (by rewrite length_replicate).
    cbn. unfold list_store. rewrite bool_decide_eq_true_2 by done.
    rewrite insert_app_r_alt, length_replicate, Nat.sub_diag
      by (by rewrite length_replicate).
    cbn. rewrite cons_middle, (assoc (++)), <- replicate_S_end.
    rewrite IH by (by rewrite length_insert).
    f_equal. f_equal.
    + destruct b; [done | by rewrite list_insert_insert_eq].
    + f_equal. lia.
Qed.

(** Each thread reads and writes before the next one starts. *)
Lemma race_in_turn v c a b :
  c !! 0 = Some v →
  pool_run race_step (flat_map (λ k, replicate 2 k) (seq a b))
    (c, replicate a RaceDone ++ replicate b RaceStart)
  = Some (<[0 := bumped b v]> c, replicate (a + b) RaceDone).
Proof.
  revert a c v. induction b as [|b IH]; intros a c v Hc.
  - cbn. by rewrite app_nil_r, Nat.add_0_r, list_insert_id.
  - assert (0 < length c) as Hlen by (by eapply lookup_lt_Some).
    cbn [seq flat_map replicate app pool_run]. unfold pool_step at 1.
    cbn [fst snd].
    rewrite lookup_app_r, length_replicate, Nat.sub_diag
      by (by rewrite length_replicate).
    cbn. rewrite Hc.
    rewrite insert_app_r_alt, length_replicate, Nat.sub_diag
      by (by rewrite length_replicate).
    cbn. unfold pool_step at 1. cbn [fst snd].
    rewrite lookup_app_r, length_replicate, Nat.sub_diag
      by (by rewrite length_replicate).
    cbn. unfold list_store. rewrite bool_decide_eq_true_2 by done.
    rewrite insert_app_r_alt, length_replicate, Nat.sub_diag
      by (by rewrite length_replicate).
    cbn. rewrite cons_middle, (assoc (++)), <- replicate_S_end.
    rewrite (IH (S a) _ (add v one))
      by (by rewrite list_lookup_insert_eq).
    rewrite list_insert_insert_eq. f_equal. f_equal.
    + f_equal. symmetry. exact (Nat.iter_succ_r b (λ u, add u one) v).
    + f_equal. lia.
Qed.

End thread_counters.

Lemma filter_replicate_false {T} (f : T → bool) n t :
  f t = false → filter (λ t, f t) (replicate n t) = [].
Proof.
  intros Hf. induction n as [|n IH]; [done|]. cbn [replicate].
  rewrite filter_cons_False; [done|]. rewrite Hf. cbn. tauto.
Qed.

(** X6: [thread_counter_safe] counts its threads.  On a counter array with
    an entry 0, under every schedule and at every moment the entry holds
    its initial value incremented once for each thread that has performed
    its atomic add, hence once for each of the [gridDim * blockDim] threads
    when all are through; the rest of the array is untouched; and some
    schedule brings all the threads through. *)
Theorem X6_thread_counter_safe_counts {A} (add : A → A → A) (one : A)
    gridDim blockDim (c : list A) v :
  c !! 0 = Some v →
  (∀ sched,
     ∃ s, thread_counter_safe add one gridDim blockDim sched c = Some s
          ∧ s.1 = <[0 := bumped add one
                            (length (filter (λ t, safe_done t) s.2)) v]> c
          ∧ (pool_done safe_left s →
             s.1 = <[0 := bumped add one (gridDim * blockDim) v]> c))
  ∧ ∃ sched s,
      thread_counter_safe add one gridDim blockDim sched c = Some s
      ∧ pool_done safe_left s.
Proof.
  intros Hc. unfold thread_counter_safe, cuda_gridsize.
  set (W := gridDim * blockDim). set (s0 := (c, replicate W SafeStart)).
  assert (safe_inv add one c v s0) as Hinit.
  { unfold safe_inv, s0. cbn [fst snd].
    rewrite filter_replicate_false by done. cbn. by rewrite list_insert_id. }
  assert (∀ s k, safe_inv add one c v s →
                 ∃ s', pool_step (safe_step add one) s k = Some s'
                       ∧ safe_inv add one c v s') as Hstep.
  { intros s k. by apply safe_inv_step. }
  split.
  - intros sched.
    destruct (pool_run_inv (safe_step add one) (safe_inv add one c v) sched s0
                Hstep Hinit) as (s & Hrun & Hinv).
    exists s. split_and!; [done..|]. intros Hdone. rewrite Hinv.
    do 2 f_equal. rewrite <- (length_replicate W SafeStart).
    change (replicate W SafeStart) with s0.2.
    rewrite <- (pool_run_length _ _ _ _ Hrun). apply length_filter_all.
    eapply Forall_impl; [exact Hdone|]. by intros [].
  - destruct (pool_run_in_turn (safe_step add one) safe_left
                (safe_step_left add one) (safe_inv add one c v) 1 s0 Hstep
                Hinit) as (s & Hrun & _ & Hdone); [|eauto].
    apply Forall_forall. intros t Ht. apply elem_of_replicate in Ht as [-> _].
    done.
Qed.

Lemma X6_witness :
  [5; 9]%Z !! 0 = Some 5%Z
  ∧ (∀ sched,
       ∃ s, thread_counter_safe Z.add 1%Z 2 3 sched [5; 9]%Z = Some s
            ∧ s.1 = <[0 := bumped Z.add 1%Z
                              (length (filter (λ t, safe_done t) s.2)) 5%Z]>
                      [5; 9]%Z
            ∧ (pool_done safe_left s →
               s.1 = <[0 := bumped Z.add 1%Z (2 * 3) 5%Z]> [5; 9]%Z))
  ∧ ∃ sched s,
      thread_counter_safe Z.add 1%Z 2 3 sched [5; 9]%Z = Some s
      ∧ pool_done safe_left s.
Proof.
  split; [reflexivity|].
  apply (X6_thread_counter_safe_counts Z.add 1%Z 2 3 [5; 9]%Z 5%Z).
  reflexivity.
Defined.

(** X7: [thread_counter_race_condition] loses increments but not all of
    them.  On a counter array with an entry 0 and with at least one
    thread, every schedule runs, and when all the threads are through the
    entry holds its initial value incremented [j] times for some [j]
    between 1 and the number of threads. *)
Theorem X7_thread_counter_race_bounds {A} (add : A → A → A) (one : A)
    gridDim blockDim sched (c : list A) v :
  c !! 0 = Some v → 0 < gridDim → 0 < blockDim →
  ∃ s, thread_counter_race_condition add one gridDim blockDim sched c = Some s
       ∧ (pool_done race_left s →
          ∃ j, 1 ≤ j ≤ gridDim * blockDim
               ∧ s.1 = <[0 := bumped add one j v]> c).
Proof.
  intros Hc Hg Hb. unfold thread_counter_race_condition, cuda_gridsize.
  set (W := gridDim * blockDim). set (s0 := (c, replicate W RaceStart)).
  assert (race_inv add one c v s0) as Hinit.
  { unfold race_inv, s0. cbn [fst snd].
    rewrite filter_replicate_false by done. split.
    - exists 0. cbn. rewrite list_insert_id by done. split_and!; [done | lia..].
    - intros k u Hk. by apply lookup_replicate in Hk as [[=] _]. }
  destruct (pool_run_inv (race_step add one) (race_inv add one c v) sched s0)
    as (s & Hrun & Hinv); [|done|].
  { intros s k. by apply race_inv_step. }
  exists s. split; [done|]. intros Hdone.
  destruct Hinv as [(j & Hj & Hle & Hpos) _].
  assert (length (filter (λ t, race_done t) s.2) = W) as Hall.
  { rewrite <- (length_replicate W (RaceStart (A := A))).
    change (replicate W RaceStart) with s0.2.
    rewrite <- (pool_run_length _ _ _ _ Hrun). apply length_filter_all.
    eapply Forall_impl; [exact Hdone|]. by intros []. }
  exists j. rewrite Hall in Hle, Hpos. unfold W in *. split; [nia | done].
Qed.

Lemma X7_witness :
  [5; 9]%Z !! 0 = Some 5%Z ∧ 0 < 1 ∧ 0 < 2
  ∧ ∃ s, thread_counter_race_condition Z.add 1%Z 1 2 [0; 1; 0; 1] [5; 9]%Z
         = Some s
         ∧ (pool_done race_left s →
            ∃ j, 1 ≤ j ≤ 1 * 2 ∧ s.1 = <[0 := bumped Z.add 1%Z j 5%Z]> [5; 9]%Z).
Proof.
  split; [reflexivity|]. split; [lia|]. split; [lia|].
  apply (X7_thread_counter_race_bounds Z.add 1%Z 1 2 [0; 1; 0; 1] [5; 9]%Z 5%Z);
    [reflexivity | lia | lia].
Defined.

(** X8: what [thread_counter_race_condition] leaves depends on the
    schedule.  If every thread reads the counter before any thread writes
    it, the launch ends with the counter incremented once, however many
    threads there are; if the threads run one after the other, it ends
    with one increment for each thread. *)
Theorem X8_thread_counter_race_schedules {A} (add : A → A → A) (one : A)
    gridDim blockDim (c : list A) v :
  c !! 0 = Some v → 0 < gridDim → 0 < blockDim →
  thread_counter_race_condition add one gridDim blockDim
    (seq 0 (gridDim * blockDim) ++ seq 0 (gridDim * blockDim)) c
  = Some (<[0 := add v one]> c, replicate (gridDim * blockDim) RaceDone)
  ∧ thread_counter_race_condition add one gridDim blockDim
      (in_turn 2 (gridDim * blockDim)) c
    = Some (<[0 := bumped add one (gridDim * blockDim) v]> c,
            replicate (gridDim * blockDim) RaceDone).
Proof.
  intros Hc Hg Hb. unfold thread_counter_race_condition, cuda_gridsize.
  set (W := gridDim * blockDim).
  assert (0 < length c) as Hlen by (by eapply lookup_lt_Some).
  split.
  - pose proof (race_all_read add one v c 0 W Hc) as Hread.
    pose proof (race_all_write add one v c 0 W Hlen) as Hwrite.
    cbn [replicate app Nat.add] in Hread, Hwrite.
    rewrite pool_run_app, Hread, Hwrite.
    destruct W eqn:HW; [unfold W in *; nia | done].
  - apply (race_in_turn add one v c 0 W Hc).
Qed.

Lemma X8_witness :
  [5; 9]%Z !! 0 = Some 5%Z ∧ 0 < 2 ∧ 0 < 2
  ∧ thread_counter_race_condition Z.add 1%Z 2 2 (seq 0 (2 * 2) ++ seq 0 (2 * 2))
      [5; 9]%Z
    = Some (<[0 := (5 + 1)%Z]> [5; 9]%Z, replicate (2 * 2) RaceDone)
  ∧ thread_counter_race_condition Z.add 1%Z 2 2 (in_turn 2 (2 * 2)) [5; 9]%Z
    = Some (<[0 := bumped Z.add 1%Z (2 * 2) 5%Z]> [5; 9]%Z,
            replicate (2 * 2) RaceDone).
Proof.
  split; [reflexivity|]. split; [lia|]. split; [lia|].
  apply (X8_thread_counter_race_schedules Z.add 1%Z 2 2 [5; 9]%Z 5%Z);
    [reflexivity | lia | lia].
Defined.

(** * More about the histogram kernels *)

(** ** A sample equal to [xmin] *)

(** [a == b] *)
Definition np_eq (a b : float64) : bool := SFeqb a b.

(** Zeros and the other finite values. *)
Definition is_finite (a : float64) : bool :=
  match a with
  | S754_zero _ | S754_finite _ _ _ => true
  | S754_infinity _ | S754_nan => false
  end.

(** The values other than NaN and the zeros. *)
Definition nonzero_number (a : float64) : bool :=
  match a with
  | S754_finite _ _ _ | S754_infinity _ => true
  | S754_zero _ | S754_nan => false
  end.

Definition is_zero (a : float64) : bool :=
  match a with
  | S754_zero _ => true
  | _ => false
  end.

Section sample_at_xmin.
Context {platform : Platform}.

Lemma np_sub_diag s m e :
  np_sub (S754_finite s m e) (S754_finite s m e) = S754_zero false.
Proof.
  unfold np_sub, SFsub. rewrite Z.min_id. unfold shl_align.
  by rewrite !Z.sub_diag.
Qed.

(** The difference of two equal finite values is a zero. *)
Lemma np_sub_eq a b :
  is_finite b = true → np_eq a b = true → is_zero (np_sub a b) = true.
Proof.
  unfold np_eq, SFeqb. intros Hb Heq.
  destruct b as [sb| | |sb mb eb]; try done;
    destruct a as [sa|sa| |sa ma ea]; try done.
  - by destruct sa, sb.
  - cbn in Heq. by destruct sa.
  - cbn in Heq. by destruct sa.
  - cbn in Heq. by destruct sb.
  - cbn in Heq. by destruct sa.
  - assert (sa = sb ∧ ea = eb ∧ ma = mb) as (-> & -> & ->).
    { cbn in Heq. destruct sa, sb; try done;
        destruct (Z.compare ea eb) eqn:He; try done;
        apply Z.compare_eq in He;
        destruct (Pos.compare_cont Eq ma mb) eqn:Hm; try done;
        apply Pos.compare_eq in Hm; done. }
    by rewrite np_sub_diag.
Qed.

(** A zero divided by a number other than zero is a zero. *)
Lemma np_div_zero a w :
  is_zero a = true → nonzero_number w = true → is_zero (np_div a w) = true.
Proof. by destruct a, w. Qed.

Lemma np_int32_zero a : is_zero a = true → np_int32 a = 0%Z.
Proof. by destruct a. Qed.

Lemma bin_of_xmin xmin w e :
  is_finite (value xmin) = true → np_eq e (value xmin) = true →
  nonzero_number w = true →
  bin_of xmin w e = 0%Z.
Proof.
  intros Hfin Heq Hw. unfold bin_of.
  apply np_int32_zero, np_div_zero; [by apply np_sub_eq | done].
Qed.

End sample_at_xmin.

(** X9: a sample equal to [xmin] is counted in bin 0.  When [xmin] is
    finite, the bin width the call computes is a number other than zero
    and there is a counter, a sample that compares equal to [xmin]
    increments counter 0 and no other: its distance to [xmin] is a zero,
    whatever the rounding of the bin width.  (The other end is not so:
    see C6.) *)
Theorem X9_sample_at_xmin_is_counted_in_bin_0 {platform : Platform}
    xs xmin xmax h e :
  0 < length h →
  is_finite (value xmin) = true →
  np_eq e (value xmin) = true →
  nonzero_number (bin_width_of xmin xmax (length h)) = true →
  cpu_counts (xs ++ [e]) xmin xmax h
  = alter int32_succ 0 (cpu_counts xs xmin xmax h).
Proof.
  intros Hn Hfin Heq Hw. rewrite !cpu_counts_accumulate. unfold bins_of.
  rewrite fmap_app. change (?f <$> [?e]) with [f e].
  rewrite accumulate_snoc, bump_in_bounds, length_accumulate.
  rewrite bin_of_xmin by done.
  unfold in_bounds. rewrite !bool_decide_eq_true_2 by lia. done.
Qed.

Lemma X9_witness :
  0 < length [0; 0; 0; 0; 0; 0; 0]%Z
  ∧ is_finite (value (PyFloat (S754_zero false))) = true
  ∧ np_eq (S754_zero true) (value (PyFloat (S754_zero false))) = true
  ∧ nonzero_number
      (bin_width_of (PyFloat (S754_zero false)) (PyFloat (of_int 9))
         (length [0; 0; 0; 0; 0; 0; 0]%Z)) = true
  ∧ cpu_counts (platform := cvttsd2si) ([of_int 3] ++ [S754_zero true])
      (PyFloat (S754_zero false)) (PyFloat (of_int 9)) [0; 0; 0; 0; 0; 0; 0]%Z
    = alter int32_succ 0
        (cpu_counts (platform := cvttsd2si) [of_int 3]
           (PyFloat (S754_zero false)) (PyFloat (of_int 9))
           [0; 0; 0; 0; 0; 0; 0]%Z).
Proof.
  split; [cbn; lia|]. split; [reflexivity|]. split; [reflexivity|].
  split; [by vm_compute|].
  apply (X9_sample_at_xmin_is_counted_in_bin_0 (platform := cvttsd2si)
           [of_int 3] (PyFloat (S754_zero false)) (PyFloat (of_int 9))
           [0; 0; 0; 0; 0; 0; 0]%Z (S754_zero true));
    [cbn; lia | reflexivity | reflexivity | by vm_compute].
Defined.

(** ** Counters that do not overflow *)

Section small_counters.
Local Open Scope Z_scope.

Lemma accumulate_small bins h k :
  Forall (λ c, 0 ≤ c ≤ k) h →
  k + Z.of_nat (length bins) ≤ INT32_MAX →
  Zsum (accumulate bins h)
  = Zsum h + Z.of_nat (length (filter (λ b, in_bounds (length h) b) bins))
  ∧ Forall (λ c, 0 ≤ c ≤ k + Z.of_nat (length bins)) (accumulate bins h).
Proof.
  revert h k. induction bins as [|b bins IH]; intros h k Hh Hmax.
  - split; [change (Zsum h = Zsum h + 0); lia|].
    eapply Forall_impl; [exact Hh|]. cbn. intros c ?. lia.
  - rewrite accumulate_cons. cbn [length] in Hmax.
    assert (Zsum (bump b h)
            = Zsum h + (if in_bounds (length h) b then 1 else 0)
            ∧ Forall (λ c, 0 ≤ c ≤ k + 1) (bump b h)) as [Hsum Hall].
    { rewrite bump_in_bounds. destruct (in_bounds (length h) b) eqn:Hb.
      - unfold in_bounds in Hb. apply andb_true_iff in Hb as [Hlo Hhi].
        apply bool_decide_eq_true in Hlo, Hhi.
        destruct (lookup_lt_is_Some_2 h (Z.to_nat b)) as [c Hc]; [lia|].
        pose proof (Forall_lookup_1 _ _ _ _ Hh Hc) as Hck. cbn in Hck.
        split.
        + rewrite (Zsum_alter _ _ _ c Hc). rewrite int32_succ_small; lia.
        + apply Forall_alter.
          * eapply Forall_impl; [exact Hh|]. cbn. intros d ?. lia.
          * intros d Hd _. simplify_eq. rewrite int32_succ_small; lia.
      - split; [lia|]. eapply Forall_impl; [exact Hh|]. cbn. intros d ?. lia. }
    destruct (IH (bump b h) (k + 1) Hall ltac:(lia)) as [IHsum IHall].
    rewrite length_bump in IHsum. split.
    + rewrite IHsum, Hsum, filter_cons. destruct (in_bounds (length h) b).
      * rewrite decide_True by exact I. cbn [length]. lia.
      * rewrite decide_False by (by intros []). lia.
    + eapply Forall_impl; [exact IHall|]. cbn. intros d ?. lia.
Qed.

End small_counters.

(** X10: the total of a histogram taken from zeroed counters, for at most
    2147483647 samples.  No counter overflows: every counter lies between
    0 and the number of samples; the counters add up to the number of
    samples whose bin number passed the guard, which is at most the number
    of samples; and they add up to the number of samples exactly when
    every bin number passed the guard. *)
Theorem X10_total_of_a_histogram {platform : Platform} xs xmin xmax nbins :
  (Z.of_nat (length xs) ≤ INT32_MAX)%Z →
  (Zsum (histogram xs xmin xmax nbins) ≤ Z.of_nat (length xs))%Z
  ∧ Forall (λ c, 0 ≤ c ≤ Z.of_nat (length xs))%Z (histogram xs xmin xmax nbins)
  ∧ Zsum (histogram xs xmin xmax nbins)
    = Z.of_nat (length (filter (λ b, in_bounds nbins b)
                          (bins_of xmin xmax nbins xs)))
  ∧ (Zsum (histogram xs xmin xmax nbins) = Z.of_nat (length xs)
     ↔ Forall (λ b, in_bounds nbins b) (bins_of xmin xmax nbins xs)).
Proof.
  intros Hmax.
  assert (length (bins_of xmin xmax nbins xs) = length xs) as Hlen.
  { unfold bins_of. by rewrite length_fmap. }
  destruct (accumulate_small (bins_of xmin xmax nbins xs) (np_zeros nbins) 0)
    as [Hsum Hall].
  { apply Forall_replicate. lia. }
  { rewrite Hlen. lia. }
  assert (length (np_zeros nbins) = nbins) as Hz by apply length_replicate.
  rewrite Hz, Zsum_np_zeros, Z.add_0_l in Hsum.
  rewrite Hlen, Z.add_0_l in Hall.
  assert (histogram xs xmin xmax nbins
          = accumulate (bins_of xmin xmax nbins xs) (np_zeros nbins)) as ->.
  { unfold histogram. by rewrite cpu_counts_accumulate, Hz. }
  split_and!; [|done | done |].
  - rewrite Hsum, <- Hlen. apply inj_le, length_filter.
  - rewrite Hsum, Nat2Z.inj_iff, <- Hlen. apply length_filter_all.
Qed.

Lemma X10_witness :
  (Z.of_nat (length [of_int (-1); of_int 9; of_int 3]) ≤ INT32_MAX)%Z
  ∧ (Zsum (histogram (platform := cvttsd2si) [of_int (-1); of_int 9; of_int 3]
             (PyFloat (of_int 0)) (PyFloat (of_int 8)) 4)
     ≤ Z.of_nat (length [of_int (-1); of_int 9; of_int 3]))%Z
  ∧ Zsum (histogram (platform := cvttsd2si) [of_int (-1); of_int 9; of_int 3]
            (PyFloat (of_int 0)) (PyFloat (of_int 8)) 4)
    = Z.of_nat (length (filter (λ b, in_bounds 4 b)
                          (bins_of (platform := cvttsd2si) (PyFloat (of_int 0))
                             (PyFloat (of_int 8)) 4
                             [of_int (-1); of_int 9; of_int 3]))).
Proof.
  assert (Z.of_nat (length [of_int (-1); of_int 9; of_int 3]) ≤ INT32_MAX)%Z
    as Hmax by (by vm_compute).
  split; [exact Hmax|].
  pose proof (X10_total_of_a_histogram (platform := cvttsd2si)
                [of_int (-1); of_int 9; of_int 3]
                (PyFloat (of_int 0)) (PyFloat (of_int 8)) 4 Hmax)
    as (Hle & _ & Hsum & _).
  split; [exact Hle | exact Hsum].
Defined.
(** X11: histograms can be taken in batches: a call on the samples [xs]
    followed by a call on the samples [ys], with the same range and the
    same counter array, leaves the counters that one call on [xs]
    followed by [ys] leaves. *)
Theorem X11_histogram_in_batches {platform : Platform} xs ys xmin xmax h :
  cpu_counts ys xmin xmax (cpu_counts xs xmin xmax h)
  = cpu_counts (xs ++ ys) xmin xmax h.
Proof.
  rewrite !cpu_counts_accumulate, length_accumulate. unfold bins_of.
  by rewrite fmap_app, accumulate_app.
Qed.

(** X12: a grid-stride loop balances the work.  Of two threads of a
    launch, the one with the smaller offset makes as many iterations as
    the other or one more; and no thread makes more than [n]. *)
Theorem X12_grid_stride_balance W n k1 k2 :
  0 < W → k1 ≤ k2 → k2 < W →
  length (py_range k2 n W) ≤ length (py_range k1 n W)
  ∧ length (py_range k1 n W) ≤ length (py_range k2 n W) + 1
  ∧ length (py_range k1 n W) ≤ n.
Proof.
  intros HW H12 H2. unfold py_range. rewrite !length_fmap, !length_seq.
  pose proof (range_length_le k1 n W HW). unfold range_length in *.
  repeat case_bool_decide; try lia.
  - pose proof (Nat.div_mod_eq (n - k1 - 1) W).
    pose proof (Nat.div_mod_eq (n - k2 - 1) W).
    pose proof (Nat.mod_upper_bound (n - k1 - 1) W).
    pose proof (Nat.mod_upper_bound (n - k2 - 1) W).
    split_and!; [nia | nia | lia].
  - pose proof (Nat.div_mod_eq (n - k1 - 1) W).
    pose proof (Nat.mod_upper_bound (n - k1 - 1) W).
    split_and!; [lia | nia | lia].
Qed.

Lemma X12_witness :
  0 < 4 ∧ 1 ≤ 2 ∧ 2 < 4
  ∧ length (py_range 2 10 4) ≤ length (py_range 1 10 4)
  ∧ length (py_range 1 10 4) ≤ length (py_range 2 10 4) + 1
  ∧ length (py_range 1 10 4) ≤ 10.
Proof.
  split; [lia|]. split; [lia|]. split; [lia|].
  apply (X12_grid_stride_balance 4 10 1 2); lia.
Defined.

(** X13: the offsets the first [add_kernel] computes by hand,
    [start = tx + ty * block_size] with
    [stride = block_size * grid_size], give the threads of a launch, block
    after block, the starts [0, 1, ..., gridDim * blockDim - 1], each once,
    and all of them the stride [gridDim * blockDim]: the launch is the one
    of the second [add_kernel], which asks [cuda.grid(1)] and
    [cuda.gridsize(1)]. *)
Theorem X13_add_kernel_offsets {A} gridDim blockDim n :
  add_launch_explicit (A := A) gridDim blockDim n
  = (λ k, AddLoop (py_range k n (gridDim * blockDim)))
      <$> seq 0 (gridDim * blockDim)
  ∧ add_launch_explicit (A := A) gridDim blockDim n
    = add_launch gridDim blockDim n.
Proof.
  split; [|apply add_launch_explicit_eq].
  rewrite add_launch_explicit_eq. apply add_launch_seq.
Qed.

Lemma count_submseteq {A B} (f : A → option B) (P : B → Prop)
    `{!∀ b, Decision (P b)} (l k : list A) :
  l ⊆+ k → length (filter P (omap f l)) ≤ length (filter P (omap f k)).
Proof.
  induction 1 as [|a l k _ IH|a b l|a l k _ IH|l1 l2 l3 _ IH1 _ IH2].
  - done.
  - cbn. destruct (f a) as [y|]; [|done].
    rewrite !filter_cons. destruct (decide (P y)); cbn; lia.
  - cbn. destruct (f a) as [y|], (f b) as [z|]; rewrite ?filter_cons;
      repeat case_decide; cbn; lia.
  - cbn. destruct (f a) as [y|]; [|done].
    rewrite filter_cons. destruct (decide (P y)); cbn; lia.
  - lia.
Qed.

Lemma walks_submseteq W n Ps : walks W n Ps → concat Ps ⊆+ seq 0 n.
Proof.
  intros HPs. pose proof HPs as [Hlen Hpre].
  destruct (decide (W = 0)) as [->|HW].
  { destruct Ps; [|done]. apply submseteq_nil_l. }
  apply NoDup_submseteq.
  - apply NoDup_concat.
    + intros P HP. apply list_elem_of_lookup in HP as [k Hk].
      destruct (Hpre k P Hk) as [rest Hrest].
      pose proof (NoDup_py_range k n W ltac:(lia)) as Hnd.
      rewrite Hrest in Hnd. by apply NoDup_app in Hnd as [? _].
    + intros i j P1 P2 a Hi Hj H1 H2.
      assert (i < W ∧ j < W) as [? ?]
        by (apply lookup_lt_Some in Hi, Hj; lia).
      destruct (Hpre i P1 Hi) as [r1 Hr1]. destruct (Hpre j P2 Hj) as [r2 Hr2].
      assert (a ∈ py_range i n W) as Ha1 by (rewrite Hr1; apply elem_of_app; by left).
      assert (a ∈ py_range j n W) as Ha2 by (rewrite Hr2; apply elem_of_app; by left).
      apply elem_of_py_range_mod in Ha1, Ha2; lia.
  - intros i Hi. destruct (elem_of_concat_walks W n Ps i HPs Hi) as (_ & _ & _ & ?).
    apply elem_of_seq. lia.
Qed.

(** X14: at every moment of every launch of [cuda_histogram], finished or
    not, each counter has received some of the increments the sequential
    [cpu_histogram] gives it and no other: it holds its value at the
    launch plus a number [j] of increments, in the arithmetic of [int32],
    where [j] is at most the number of samples assigned to it.  So as long
    as the counter does not overflow it lies between its value at the
    launch and the value the sequential kernel leaves in it. *)
Theorem X14_cuda_counters_never_overshoot {platform : Platform}
    gridDim blockDim sched xs xmin xmax h i c :
  h !! i = Some c → is_int32 c →
  ∃ j : nat,
    (Z.of_nat j ≤ assigned xmin xmax (length h) xs i)%Z
    ∧ cuda_counts gridDim blockDim sched xs xmin xmax h !! i
      = Some (wrap32 (c + Z.of_nat j))
    ∧ cpu_counts xs xmin xmax h !! i
      = Some (wrap32 (c + assigned xmin xmax (length h) xs i))
    ∧ ((c + assigned xmin xmax (length h) xs i ≤ INT32_MAX)%Z →
       (c ≤ wrap32 (c + Z.of_nat j)
          ≤ wrap32 (c + assigned xmin xmax (length h) xs i))%Z).
Proof.
  intros Hi Hc. unfold cuda_counts, cuda_run, cuda_histogram.
  assert (two_arrays xs h !! x_loc = Some (FloatArray xs)) as Hx by done.
  assert (two_arrays xs h !! out_loc = Some (IntArray h)) as Hout by done.
  rewrite launch_seq.
  rewrite (lookup_total_correct _ _ _ Hx), (lookup_total_correct _ _ _ Hout).
  cbn [shape0].
  set (bw := bin_width_of xmin xmax (length h)). set (W := gridDim * blockDim).
  pose proof (grid_inv_run x_loc out_loc xmin bw (FloatArray xs)
                (two_arrays xs h) h W ltac:(done) Hx Hout sched _
                (grid_inv_init out_loc xmin bw (FloatArray xs)
                   (two_arrays xs h) h W Hout)) as Hinv.
  cbn [elements] in Hinv.
  destruct Hinv as (Ps & Hlen & HlenP & Hth & ->).
  assert (walks W (length xs) Ps) as HPs.
  { split; [done|]. intros k P HP.
    destruct (lookup_lt_is_Some_2
                (foldl (grid_step x_loc out_loc xmin bw)
                   (two_arrays xs h,
                    (λ k, Loop (py_range k (length xs) W)) <$> seq 0 W)
                   sched).2 k) as [t Ht].
    { apply lookup_lt_Some in HP. lia. }
    specialize (Hth k t P Ht HP). destruct t as [todo|b todo]; cbn in Hth.
    - by exists todo.
    - destruct Hth as (j & e & Hr & _). by exists (j :: todo). }
  unfold counters. rewrite lookup_total_insert_eq.
  rewrite cpu_counts_accumulate, !lookup_accumulate, Hi. cbn [fmap option_fmap option_map].
  rewrite !iter_int32_succ by done.
  set (j := length (filter (λ b, b = Z.of_nat i)
                      (bins_at xmin bw (FloatArray xs) (concat Ps)))).
  assert (Z.of_nat j ≤ assigned xmin xmax (length h) xs i)%Z as Hj.
  { apply inj_le. unfold bins_of.
    change (bin_of xmin (bin_width_of xmin xmax (length h)) <$> xs)
      with (bin_of xmin bw <$> elements (FloatArray xs)).
    rewrite <- (bins_at_all xmin bw (FloatArray xs)).
    apply count_submseteq. by apply (walks_submseteq W). }
  exists j. split_and!; [done | done | done |].
  intros Hmax. unfold is_int32 in Hc.
  rewrite !wrap32_id by (unfold is_int32; lia). lia.
Qed.

Lemma X14_witness :
  [2147483646; 0]%Z !! 0 = Some 2147483646%Z
  ∧ is_int32 2147483646
  ∧ ∃ j : nat,
      (Z.of_nat j
       ≤ assigned (platform := saturating) (NpFloat (of_int 0))
           (NpFloat (of_int 8)) (length [2147483646; 0]%Z)
           [of_int 1; of_int 5; of_int 2] 0)%Z
      ∧ cuda_counts (platform := saturating) 1 2 [0; 1; 0]
          [of_int 1; of_int 5; of_int 2] (NpFloat (of_int 0))
          (NpFloat (of_int 8)) [2147483646; 0]%Z !! 0
        = Some (wrap32 (2147483646 + Z.of_nat j)).
Proof.
  split; [reflexivity|]. split; [by vm_compute|].
  destruct (X14_cuda_counters_never_overshoot (platform := saturating) 1 2
              [0; 1; 0] [of_int 1; of_int 5; of_int 2] (NpFloat (of_int 0))
              (NpFloat (of_int 8)) [2147483646; 0]%Z 0 2147483646%Z)
    as (j & Hj & Hcuda & _); [reflexivity | by vm_compute |].
  exists j. split; [exact Hj | exact Hcuda].
Defined.

(** X15: in a grid-stride loop the threads move through memory side by
    side: the [j]-th index of the walk [range(k, n, W)] of thread [k] is
    [k + j * W], as long as that is below [n], so that in their [j]-th
    iterations the threads [0, 1, ..., W - 1] touch the consecutive
    locations [j * W, j * W + 1, ...]. *)
Theorem X15_grid_stride_coalesced W n k j i :
  0 < W → py_range k n W !! j = Some i ↔ i = k + j * W ∧ i < n.
Proof.
  intros HW. unfold py_range. rewrite list_lookup_fmap. split.
  - destruct (seq 0 (range_length k n W) !! j) as [j'|] eqn:Hj; [|done].
    intros [= <-]. apply lookup_seq in Hj as [-> Hj]. split; [done|].
    by apply range_length_lt in Hj.
  - intros [-> Hlt]. apply range_length_lt in Hlt; [|done].
    by rewrite lookup_seq_lt.
Qed.

Lemma X15_witness :
  0 < 4 ∧ (py_range 1 10 4 !! 2 = Some 9 ↔ 9 = 1 + 2 * 4 ∧ 9 < 10).
Proof. split; [lia|]. apply (X15_grid_stride_coalesced 4 10 1 2 9). lia. Defined.

(** ** The conversion where it is defined *)

(** The quotients [np.int32] converts within its range. *)
Definition converts (a : float64) : bool :=
  match trunc a with
  | Some t => ((INT32_MIN <=? t) && (t <=? INT32_MAX))%Z
  | None => false
  end.

(** The quotient [(element - xmin)/bin_width] of a sample. *)
Definition quotient (xmin : scalar) (bin_width element : float64) : float64 :=
  np_div (np_sub element (value xmin)) bin_width.

Lemma np_int32_converts (p q : Platform) a :
  converts a = true → np_int32 (platform := p) a = np_int32 (platform := q) a.
Proof.
  unfold converts, np_int32. destruct (trunc a) as [t|]; [|done].
  by intros ->.
Qed.

Lemma bins_of_converts (p q : Platform) xmin xmax nbins xs :
  Forall (λ e, converts (quotient xmin (bin_width_of xmin xmax nbins) e) = true)
         xs →
  bins_of (platform := p) xmin xmax nbins xs
  = bins_of (platform := q) xmin xmax nbins xs.
Proof.
  intros Hxs. unfold bins_of. apply list_fmap_ext.
  intros k e Hk. apply np_int32_converts.
  by apply (Forall_lookup_1 _ _ _ _ Hxs Hk).
Qed.

(** X16: where the conversions are defined the platform plays no part.
    When the quotient of every sample converts within the range of
    [int32], [cpu_histogram] leaves the same counters whatever the
    platform, and every finished launch of [cuda_histogram] on a device
    leaves the counters [cpu_histogram] leaves on the host, even when
    device and host convert differently outside that range. *)
Theorem X16_defined_conversions_agree (host device : Platform)
    gridDim blockDim sched xs xmin xmax h :
  0 < gridDim → 0 < blockDim →
  Forall (λ e, converts (quotient xmin (bin_width_of xmin xmax (length h)) e)
               = true) xs →
  cpu_counts (platform := device) xs xmin xmax h
  = cpu_counts (platform := host) xs xmin xmax h
  ∧ (finished (cuda_run (platform := device) gridDim blockDim sched
                 xs xmin xmax h) = true →
     cuda_counts (platform := device) gridDim blockDim sched xs xmin xmax h
     = cpu_counts (platform := host) xs xmin xmax h).
Proof.
  intros Hg Hb Hxs.
  assert (cpu_counts (platform := device) xs xmin xmax h
          = cpu_counts (platform := host) xs xmin xmax h) as Hcpu.
  { rewrite !cpu_counts_accumulate. f_equal. by apply bins_of_converts. }
  split; [done|]. intros Hfin. rewrite <- Hcpu.
  unfold cuda_counts, cpu_counts, cpu_call, cuda_run in *.
  by rewrite (cuda_histogram_finished _ _ _ x_loc out_loc _ _
                (FloatArray xs) _ h).
Qed.

Lemma X16_witness :
  0 < 1 ∧ 0 < 2
  ∧ Forall (λ e, converts
                   (quotient (NpFloat (of_int 0))
                      (bin_width_of (NpFloat (of_int 0)) (NpFloat (of_int 9))
                         (length [0; 0; 0; 0; 0; 0; 0]%Z)) e) = true)
           [of_int 9; of_int (-1); of_int 20]
  ∧ cpu_counts (platform := saturating) [of_int 9; of_int (-1); of_int 20]
      (NpFloat (of_int 0)) (NpFloat (of_int 9)) [0; 0; 0; 0; 0; 0; 0]%Z
    = cpu_counts (platform := cvttsd2si) [of_int 9; of_int (-1); of_int 20]
        (NpFloat (of_int 0)) (NpFloat (of_int 9)) [0; 0; 0; 0; 0; 0; 0]%Z.
Proof.
  assert (Forall (λ e, converts
                         (quotient (NpFloat (of_int 0))
                            (bin_width_of (NpFloat (of_int 0))
                               (NpFloat (of_int 9))
                               (length [0; 0; 0; 0; 0; 0; 0]%Z)) e) = true)
                 [of_int 9; of_int (-1); of_int 20]) as Hxs.
  { repeat constructor; by vm_compute. }
  split; [lia|]. split; [lia|]. split; [exact Hxs|].
  apply (X16_defined_conversions_agree cvttsd2si saturating 1 2 []
           [of_int 9; of_int (-1); of_int 20] (NpFloat (of_int 0))
           (NpFloat (of_int 9)) [0; 0; 0; 0; 0; 0; 0]%Z); [lia | lia | exact Hxs].
Defined.
